(** * The level-routing logger of redis-manager: a shallow embedding

    The Go package [logger] builds a zap logger out of one [zapcore.Core] per
    zap level, each core writing to its own file below the configured
    directory.  This development embeds the package (its configuration
    record, the encoder policy, [initLogger], [setupCores], [getLogWriter],
    [pathExists] and the emit functions) together with the parts of its
    environment that decide what it does: zapcore's levels and level
    encoders, the lexical path functions of [path/filepath], and the three
    file-system calls the package issues.  The small package [model], with
    the names of the configuration keys, is embedded beside it.

    State is one explicit [World] threaded through every operation: the
    file-system nodes, the calls issued so far, standard output, the cells
    closures capture, and the package variable [sugaredLogger]. *)

From stdpp Require Import gmap strings list pretty.
From Stdlib Require Import ZArith Lia Ascii.

Open Scope Z_scope.

(** ** path/filepath: the lexical functions, for the slash separator *)

Module filepath.

(** The elements of a path between separators, [cur] being the element
    under way: a doubled separator gives an empty element. *)
Fixpoint split (cur : string) (s : string) : list string :=
  match s with
  | EmptyString => [cur]
  | String c rest =>
      if Ascii.eqb c "/"%char then cur :: split "" rest
      else split (cur +:+ String c "") rest
  end.

Definition rooted (p : string) : bool :=
  match p with
  | String c _ => Ascii.eqb c "/"%char
  | EmptyString => false
  end.

(** One element of [Clean]'s scan, [stack] holding the kept elements,
    last one first: empty and dot elements are dropped, a dot-dot cancels
    the element before it, is dropped at the root, and is kept at the head
    of a relative path. *)
Definition clean_step (is_rooted : bool) (stack : list string) (e : string)
  : list string :=
  if String.eqb e "" || String.eqb e "." then stack
  else if String.eqb e ".." then
    match stack with
    | top :: below => if String.eqb top ".." then e :: stack else below
    | [] => if is_rooted then [] else [e]
    end
  else e :: stack.

Definition Clean (p : string) : string :=
  let kept := rev (fold_left (clean_step (rooted p)) (split "" p) []) in
  if rooted p then "/" +:+ String.concat "/" kept
  else match kept with
       | [] => "."
       | _ => String.concat "/" kept
       end.

(** [Join]: the elements from the first non-empty one on, joined by the
    separator and cleaned; the empty string when there is none. *)
Fixpoint Join (elem : list string) : string :=
  match elem with
  | [] => ""
  | e :: rest =>
      if String.eqb e "" then Join rest
      else Clean (String.concat "/" elem)
  end.

(** [Dir]: the path up to and including its last separator, cleaned. *)
Definition Dir (p : string) : string :=
  match rev (split "" p) with
  | _ :: (_ :: _) as before => Clean (String.concat "/" (rev before) +:+ "/")
  | _ => "."
  end.

End filepath.

(** ** Go's [error] values, as far as the package makes and passes them *)

Inductive Errno : Type := ENOENT | EEXIST | EACCES | ENOTDIR | EISDIR | EIO.

#[global] Instance Errno_eq_dec : EqDecision Errno.
Proof. solve_decision. Defined.

Definition Errno_Error (e : Errno) : string :=
  match e with
  | ENOENT => "no such file or directory"
  | EEXIST => "file exists"
  | EACCES => "permission denied"
  | ENOTDIR => "not a directory"
  | EISDIR => "is a directory"
  | EIO => "input/output error"
  end.

(** An [error] is either the [*fs.PathError] of a failed file-system call or
    the string error [fmt.Errorf] builds (no [%w] verb is used, so nothing
    is wrapped). *)
Inductive error : Type :=
| PathError (op path : string) (errno : Errno)
| errorString (s : string).

#[global] Instance error_eq_dec : EqDecision error.
Proof. solve_decision. Defined.

Definition error_Error (e : error) : string :=
  match e with
  | PathError op path errno => op +:+ " " +:+ path +:+ ": " +:+ Errno_Error errno
  | errorString s => s
  end.

(** What a Go function returning [(T, error)] returns. *)
Inductive Result (A : Type) : Type :=
| Ok (a : A)
| Err (e : error).
Arguments Ok {A} a.
Arguments Err {A} e.

(** ** os: the file system the package acts on *)

Module os.

Inductive Node : Type :=
| Directory
| Regular (content : list string).

Inductive Syscall : Type :=
| SysStat (name : string)
| SysMkdir (name : string) (perm : Z)
| SysOpenFile (name : string) (flag perm : Z).

(** The state of the operating system: the nodes by cleaned path, the
    failures the environment imposes on calls (permissions, quotas and the
    like), the calls issued so far, oldest first, and what was printed on
    standard output. *)
Record State : Type := mkState {
  nodes : gmap string Node;
  fault : Syscall -> option Errno;
  calls : list Syscall;
  stdout : list string
}.

Definition O_WRONLY : Z := 1.
Definition O_CREATE : Z := 64.
Definition O_EXCL : Z := 128.
Definition O_TRUNC : Z := 512.
Definition O_APPEND : Z := 1024.
Definition ModePerm : Z := 511.

Definition has_flag (flag bit : Z) : bool := negb (Z.land flag bit =? 0).

(** The root, the working directory and the directories above it are
    always there. *)
Definition always_there (key : string) : bool :=
  String.eqb key "/"
  || forallb (fun e => String.eqb e "." || String.eqb e "..")
             (filepath.split "" key).

(** Path resolution: the empty path names nothing, any other path names
    what is at its cleaned form. *)
Definition resolve (s : State) (name : string) : option Node :=
  if String.eqb name "" then None
  else
    let key := filepath.Clean name in
    if always_there key then Some Directory else nodes s !! key.

(** What the directory part of a path names. *)
Definition parent (s : State) (name : string) : option Node :=
  if String.eqb name "" then None
  else resolve s (filepath.Dir (filepath.Clean name)).

Definition issue (c : Syscall) (s : State) : State :=
  mkState (nodes s) (fault s) (calls s ++ [c]) (stdout s).

Definition set_node (key : string) (n : Node) (s : State) : State :=
  mkState (<[key := n]> (nodes s)) (fault s) (calls s) (stdout s).

Definition print (text : string) (s : State) : State :=
  mkState (nodes s) (fault s) (calls s) (stdout s ++ [text]).

(** [os.Stat]: only whether it fails, and how, is used by the package. *)
Definition Stat (name : string) (s : State) : State * Result Node :=
  let s1 := issue (SysStat name) s in
  match fault s (SysStat name) with
  | Some e => (s1, Err (PathError "stat" name e))
  | None =>
      match resolve s name with
      | Some n => (s1, Ok n)
      | None => (s1, Err (PathError "stat" name ENOENT))
      end
  end.

(** [os.IsNotExist] *)
Definition IsNotExist (e : error) : bool :=
  match e with
  | PathError _ _ ENOENT => true
  | _ => false
  end.

(** [os.Mkdir]: one directory, whose parent has to be a directory already. *)
Definition Mkdir (name : string) (perm : Z) (s : State) : State * option error :=
  let s1 := issue (SysMkdir name perm) s in
  let fail e := (s1, Some (PathError "mkdir" name e)) in
  match fault s (SysMkdir name perm) with
  | Some e => fail e
  | None =>
      match resolve s name with
      | Some _ => fail EEXIST
      | None =>
          match parent s name with
          | Some Directory => (set_node (filepath.Clean name) Directory s1, None)
          | Some (Regular _) => fail ENOTDIR
          | None => fail ENOENT
          end
      end
  end.

(** An [*os.File]: the standard streams, or an open regular file, named by
    the key of its node, with the flags it was opened with. *)
Inductive File : Type :=
| Stdout
| Stderr
| Opened (key : string) (flag : Z).

(** [os.OpenFile] *)
Definition OpenFile (name : string) (flag perm : Z) (s : State)
  : State * Result File :=
  let s1 := issue (SysOpenFile name flag perm) s in
  let key := filepath.Clean name in
  let fail e := (s1, Err (PathError "open" name e)) in
  match fault s (SysOpenFile name flag perm) with
  | Some e => fail e
  | None =>
      match resolve s name with
      | Some Directory => fail EISDIR
      | Some (Regular content) =>
          if has_flag flag O_CREATE && has_flag flag O_EXCL then fail EEXIST
          else if has_flag flag O_TRUNC
               then (set_node key (Regular []) s1, Ok (Opened key flag))
               else (s1, Ok (Opened key flag))
      | None =>
          if has_flag flag O_CREATE then
            match parent s name with
            | Some Directory => (set_node key (Regular []) s1, Ok (Opened key flag))
            | Some (Regular _) => fail ENOTDIR
            | None => fail ENOENT
            end
          else fail ENOENT
      end
  end.

(** [Write] on a file handle, one chunk.  A file opened with [O_APPEND] gets
    the chunk at its end; positioned writes are not modelled, a handle
    without [O_APPEND] writes nothing here. *)
Definition File_Write (f : File) (chunk : string) (s : State) : State :=
  match f with
  | Stdout => print chunk s
  | Stderr => s
  | Opened key flag =>
      match nodes s !! key with
      | Some (Regular content) =>
          if has_flag flag O_APPEND
          then set_node key (Regular (content ++ [chunk])) s
          else s
      | _ => s
      end
  end.

End os.

(** ** zapcore: levels and level encoders *)

Module zapcore.

(** [type Level int8]: a level is its integer. *)
Abbreviation Level := Z (only parsing).

Definition DebugLevel : Level := -1.
Definition InfoLevel : Level := 0.
Definition WarnLevel : Level := 1.
Definition ErrorLevel : Level := 2.
Definition DPanicLevel : Level := 3.
Definition PanicLevel : Level := 4.
Definition FatalLevel : Level := 5.

(** [Level.String]: the lower-case name, [Level(n)] for any other value. *)
Definition Level_String (l : Level) : string :=
  match l with
  | -1 => "debug"
  | 0 => "info"
  | 1 => "warn"
  | 2 => "error"
  | 3 => "dpanic"
  | 4 => "panic"
  | 5 => "fatal"
  | _ => "Level(" +:+ pretty l +:+ ")"
  end.

(** [Level.CapitalString]: the all-caps name, [LEVEL(n)] otherwise. *)
Definition Level_CapitalString (l : Level) : string :=
  match l with
  | -1 => "DEBUG"
  | 0 => "INFO"
  | 1 => "WARN"
  | 2 => "ERROR"
  | 3 => "DPANIC"
  | 4 => "PANIC"
  | 5 => "FATAL"
  | _ => "LEVEL(" +:+ pretty l +:+ ")"
  end.

(** Terminal colours of zap's [internal/color]: [Black = 30], then
    [Red], [Green], [Yellow], [Blue], [Magenta]. *)
Definition Red : Z := 31.
Definition Yellow : Z := 33.
Definition Blue : Z := 34.
Definition Magenta : Z := 35.

Definition ESC : string := String (Ascii.ascii_of_nat 27) "".

(** [Color.Add]: [Sprintf("\x1b[%dm%s\x1b[0m", c, s)] *)
Definition Color_Add (c : Z) (s : string) : string :=
  ESC +:+ "[" +:+ pretty c +:+ "m" +:+ s +:+ ESC +:+ "[0m".

(** [_levelToColor], with [_unknownLevelColor] for the values off the
    table. *)
Definition levelToColor (l : Level) : Z :=
  match l with
  | -1 => Magenta
  | 0 => Blue
  | 1 => Yellow
  | _ => Red
  end.

(** The values a [zapcore.LevelEncoder] field holds in this program: the
    four encoders zapcore exports, and the one closure the package
    builds. *)
Inductive LevelEncoder : Type :=
| LowercaseLevelEncoder
| CapitalLevelEncoder
| LowercaseColorLevelEncoder
| CapitalColorLevelEncoder
| BracketLevelEncoder.

(** The string a level encoder appends for a level. *)
Definition encodeLevel (e : LevelEncoder) (l : Level) : string :=
  match e with
  | LowercaseLevelEncoder => Level_String l
  | CapitalLevelEncoder => Level_CapitalString l
  | LowercaseColorLevelEncoder => Color_Add (levelToColor l) (Level_String l)
  | CapitalColorLevelEncoder => Color_Add (levelToColor l) (Level_CapitalString l)
  | BracketLevelEncoder => "[" +:+ Level_CapitalString l +:+ "]"
  end.

Inductive EncoderKind : Type := JSONEncoder | ConsoleEncoder.

#[global] Instance LevelEncoder_eq_dec : EqDecision LevelEncoder.
Proof. solve_decision. Defined.

#[global] Instance EncoderKind_eq_dec : EqDecision EncoderKind.
Proof. solve_decision. Defined.

(** The time of an entry, in the fields the layout of the package's time
    encoder prints. *)
Record Time : Type := mkTime {
  year : Z; month : Z; day : Z;
  hour : Z; minute : Z; second : Z; millisecond : Z
}.

(** A number in at least [width] digits, zero-padded on the left. *)
Definition digits (width : nat) (n : Z) : string :=
  let s := pretty n in
  String.concat "" (replicate (width - String.length s) "0") +:+ s.

(** [Time.Format] at the layout [2006-01-02 15:04:05.000]. *)
Definition Time_Format (t : Time) : string :=
  digits 4 (year t) +:+ "-" +:+ digits 2 (month t) +:+ "-" +:+ digits 2 (day t)
  +:+ " " +:+ digits 2 (hour t) +:+ ":" +:+ digits 2 (minute t) +:+ ":"
  +:+ digits 2 (second t) +:+ "." +:+ digits 3 (millisecond t).

(** [EntryCaller] *)
Record EntryCaller : Type := mkCaller {
  Defined : bool;
  File : string;
  Line : Z
}.

Definition NoCaller : EntryCaller := mkCaller false "" 0.

Definition EntryCaller_FullPath (ec : EntryCaller) : string :=
  File ec +:+ ":" +:+ pretty (Line ec).

(** [EntryCaller.TrimmedPath]: the file from its penultimate separator on,
    and the line; the full path when the file has fewer than two
    separators. *)
Definition EntryCaller_TrimmedPath (ec : EntryCaller) : string :=
  if Defined ec then
    match rev (filepath.split "" (File ec)) with
    | base :: dir :: _ :: _ => dir +:+ "/" +:+ base +:+ ":" +:+ pretty (Line ec)
    | _ => EntryCaller_FullPath ec
    end
  else "undefined".

Inductive TimeEncoder : Type := LayoutTimeEncoder.
Inductive DurationEncoder : Type := SecondsDurationEncoder.
Inductive CallerEncoder : Type := ShortCallerEncoder | TrimmedCallerEncoder.
Inductive NameEncoder : Type := FullNameEncoder.

Definition DefaultLineEnding : string := String (Ascii.ascii_of_nat 10) "".

Record EncoderConfig : Type := mkEncoderConfig {
  TimeKey : string;
  LevelKey : string;
  NameKey : string;
  CallerKey : string;
  MessageKey : string;
  StacktraceKey : string;
  LineEnding : string;
  EncodeLevel : LevelEncoder;
  EncodeTime : TimeEncoder;
  EncodeDuration : DurationEncoder;
  EncodeCaller : CallerEncoder;
  EncodeName : NameEncoder
}.

(** [NewJSONEncoder] and [NewConsoleEncoder] keep the configuration. *)
Record Encoder : Type := mkEncoder {
  kind : EncoderKind;
  config : EncoderConfig
}.

Record Entry : Type := mkEntry {
  Level_ : Level;
  Time_ : Time;
  LoggerName : string;
  Message : string;
  Caller : EntryCaller;
  Stack : string
}.

Definition nonempty (s : string) : bool := negb (String.eqb s "").

Definition when (b : bool) (key value : string) : list (string * string) :=
  if b then [(key, value)] else [].

(** The keyed values [EncodeEntry] puts out for an entry, in the order of
    the encoder kind: the JSON encoder starts with the level, the console
    encoder with the time.  Both leave the caller out unless the entry's
    caller is defined. *)
Definition entry_fields (enc : Encoder) (ent : Entry) : list (string * string) :=
  let c := config enc in
  let time := when (nonempty (TimeKey c)) (TimeKey c) (Time_Format (Time_ ent)) in
  let level := when (nonempty (LevelKey c)) (LevelKey c)
                 (encodeLevel (EncodeLevel c) (Level_ ent)) in
  let name := when (nonempty (LoggerName ent) && nonempty (NameKey c))
                (NameKey c) (LoggerName ent) in
  let caller := when (Defined (Caller ent) && nonempty (CallerKey c))
                  (CallerKey c) (EntryCaller_TrimmedPath (Caller ent)) in
  let msg := when (nonempty (MessageKey c)) (MessageKey c) (Message ent) in
  let stack := when (nonempty (Stack ent) && nonempty (StacktraceKey c))
                 (StacktraceKey c) (Stack ent) in
  match kind enc with
  | JSONEncoder => level ++ time ++ name ++ caller ++ msg ++ stack
  | ConsoleEncoder => time ++ level ++ name ++ caller ++ msg ++ stack
  end.

Definition quoted (s : string) : string :=
  String (Ascii.ascii_of_nat 34) "" +:+ s +:+ String (Ascii.ascii_of_nat 34) "".

(** [EncodeEntry]: one line.  The JSON encoder's escaping of the values is
    left out; the console encoder separates the values by tabs. *)
Definition EncodeEntry (enc : Encoder) (ent : Entry) : string :=
  let fields := entry_fields enc ent in
  match kind enc with
  | JSONEncoder =>
      "{" +:+ String.concat ","
                (map (fun kv => quoted (fst kv) +:+ ":" +:+ quoted (snd kv)) fields)
      +:+ "}" +:+ LineEnding (config enc)
  | ConsoleEncoder =>
      String.concat (String (Ascii.ascii_of_nat 9) "") (map snd fields)
      +:+ LineEnding (config enc)
  end.

(** A [LevelEnablerFunc] of this program: the closure
    [func(lvl) bool { return lvl == level }], which holds the variable
    [level] by reference; [cell] is where that variable lives. *)
Inductive LevelEnabler : Type :=
| EqualsCell (cell : nat).

(** Calling the closure reads the variable as it is at the time of the
    call. *)
Definition Enabled (heap : list Level) (en : LevelEnabler) (lvl : Level) : bool :=
  match en with
  | EqualsCell cell =>
      match heap !! cell with
      | Some level => lvl =? level
      | None => false
      end
  end.

(** [AddSync] of a file: the file is a write syncer already. *)
Definition AddSync (f : os.File) : os.File := f.

(** [NewCore(enc, ws, enab)] *)
Record Core : Type := NewCore {
  enc : Encoder;
  out : os.File;
  enab : LevelEnabler
}.

(** [NewTee(cores...)]: the tee is its cores, in order. *)
Definition NewTee (cores : list Core) : list Core := cores.

(** The cores of a [NewTee] that take an entry of a level: [Check] asks
    every core in order and adds those whose enabler accepts. *)
Definition Check (heap : list Level) (cores : list Core) (lvl : Level)
  : list Core :=
  filter (fun c => Is_true (Enabled heap (enab c) lvl)) cores.

(** [CheckedEntry.Write]: every checked core encodes the entry and writes
    the line to its own output. *)
Definition Write (checked : list Core) (ent : Entry) (s : os.State) : os.State :=
  fold_left (fun s c => os.File_Write (out c) (EncodeEntry (enc c) ent) s)
            checked s.

End zapcore.

(** ** zap: the logger over a tee of cores *)

Module zap.

(** A [*zap.Logger], in the fields this program sets: the cores of its
    [zapcore.NewTee], in order, and whether callers are annotated.  Its name
    is empty and stack traces are taken above [FatalLevel] only, that is
    never. *)
Record Logger : Type := mkLogger {
  core : list zapcore.Core;
  addCaller : bool
}.

Inductive Option : Type := AddCaller.

Definition apply (log : Logger) (opt : Option) : Logger :=
  match opt with
  | AddCaller => mkLogger (core log) true
  end.

(** [zap.New(core, options...)] *)
Definition New (cores : list zapcore.Core) (options : list Option) : Logger :=
  fold_left apply options (mkLogger cores false).

(** [Logger.Sugar]: the sugared logger is a wrapper of its base. *)
Record SugaredLogger : Type := Sugar { base : Logger }.

(** What follows the write of an entry: nothing, the exit of [FatalLevel],
    or the panic of [PanicLevel]. *)
Inductive After : Type := Continue | Exit (code : Z) | Panic (msg : string).

Definition terminal (lvl : zapcore.Level) (msg : string) : After :=
  if lvl =? zapcore.FatalLevel then Exit 1
  else if lvl =? zapcore.PanicLevel then Panic msg
  else Continue.

(** The entry a logger makes of a message: [site] is the frame the caller
    annotation finds, used only when the logger annotates callers. *)
Definition entry_of (log : Logger) (lvl : zapcore.Level) (msg : string)
  (site : zapcore.EntryCaller) (now : zapcore.Time) : zapcore.Entry :=
  zapcore.mkEntry lvl now "" msg
    (if addCaller log then site else zapcore.NoCaller) "".

(** One log call: check the cores, write to the checked ones. *)
Definition log (heap : list zapcore.Level) (l : Logger) (lvl : zapcore.Level)
  (msg : string) (site : zapcore.EntryCaller) (now : zapcore.Time)
  (s : os.State) : os.State * After :=
  (zapcore.Write (zapcore.Check heap (core l) lvl) (entry_of l lvl msg site now) s,
   terminal lvl msg).

End zap.

(** ** The package [logger] *)

(** What the closure of a [for ... range] loop captures when it mentions the
    loop variable.  The language version the module declares in its [go.mod]
    decides it: from Go 1.22 on every iteration has a variable of its own;
    before, one variable is shared by all iterations.  The package is
    embedded for either rule. *)
Inductive LoopVar : Type := PerIteration | PerLoop.

(** The state of the process: the operating system, the variables closures
    hold by reference, and the package variable [sugaredLogger] ([None] is
    the nil pointer it starts as). *)
Record World : Type := mkWorld {
  sys : os.State;
  heap : list zapcore.Level;
  sugaredLogger : option zap.SugaredLogger
}.

Definition with_sys (s : os.State) (w : World) : World :=
  mkWorld s (heap w) (sugaredLogger w).

Record ZapConfig : Type := mkZapConfig {
  Level : string;
  Prefix : string;
  Format : string;
  Director : string;
  EncodeLevel : string;
  StacktraceKey : string;
  ShowLine : bool;
  LogInConsole : bool;
  RetentionDay : Z;
  CustomLevelEncoder : bool
}.

(** [LevelEncoder] returns the level encoder based on the configuration. *)
Definition LevelEncoder (c : ZapConfig) : zapcore.LevelEncoder :=
  if CustomLevelEncoder c then zapcore.BracketLevelEncoder
  else if String.eqb (EncodeLevel c) "lowercase" then zapcore.LowercaseLevelEncoder
  else if String.eqb (EncodeLevel c) "capital" then zapcore.CapitalLevelEncoder
  else if String.eqb (EncodeLevel c) "lowercaseColor" then zapcore.LowercaseColorLevelEncoder
  else if String.eqb (EncodeLevel c) "capitalColor" then zapcore.CapitalColorLevelEncoder
  else zapcore.CapitalLevelEncoder.

Definition TimeEncoder (c : ZapConfig) : zapcore.TimeEncoder :=
  zapcore.LayoutTimeEncoder.

Definition CallerEncoder (c : ZapConfig) : zapcore.CallerEncoder :=
  zapcore.TrimmedCallerEncoder.

Definition EncoderConfig (c : ZapConfig) : zapcore.EncoderConfig :=
  {| zapcore.TimeKey := "time";
     zapcore.LevelKey := "level";
     zapcore.NameKey := "logger";
     zapcore.CallerKey := "caller";
     zapcore.MessageKey := "msg";
     zapcore.StacktraceKey := StacktraceKey c;
     zapcore.LineEnding := zapcore.DefaultLineEnding;
     zapcore.EncodeLevel := LevelEncoder c;
     zapcore.EncodeTime := TimeEncoder c;
     zapcore.EncodeDuration := zapcore.SecondsDurationEncoder;
     zapcore.EncodeCaller := zapcore.ShortCallerEncoder;
     zapcore.EncodeName := zapcore.FullNameEncoder |}.

(** [pathExists] checks if a path exists. *)
Definition pathExists (path : string) (s : os.State)
  : os.State * (bool * option error) :=
  let '(s1, r) := os.Stat path s in
  match r with
  | Ok _ => (s1, (true, None))
  | Err err =>
      if os.IsNotExist err then (s1, (false, None))
      else (s1, (false, Some err))
  end.

(** [O_APPEND|O_CREATE|O_WRONLY] *)
Definition log_flags : Z :=
  Z.lor (Z.lor os.O_APPEND os.O_CREATE) os.O_WRONLY.

(** The permission bits [0644]. *)
Definition log_perm : Z := 420.

(** [getLogWriter] creates a write syncer for the given file. *)
Definition getLogWriter (cfg : ZapConfig) (filename : string) (s : os.State)
  : os.State * Result os.File :=
  let path := filepath.Join [Director cfg; filename] in
  let '(s1, r) := os.OpenFile path log_flags log_perm s in
  match r with
  | Err err => (s1, Err err)
  | Ok file => (s1, Ok (zapcore.AddSync file))
  end.

Definition levels : list zapcore.Level :=
  [zapcore.DebugLevel; zapcore.InfoLevel; zapcore.WarnLevel; zapcore.ErrorLevel;
   zapcore.DPanicLevel; zapcore.PanicLevel; zapcore.FatalLevel].

(** The head of one iteration of [for _, level := range levels]: where the
    variable [level] of this iteration lives, and the heap once it holds the
    element.  [shared] is the cell of the one variable of a [PerLoop] loop. *)
Definition bind_level (sem : LoopVar) (shared : nat) (l : zapcore.Level)
  (h : list zapcore.Level) : list zapcore.Level * nat :=
  match sem with
  | PerIteration => (h ++ [l], length h)
  | PerLoop => (<[shared := l]> h, shared)
  end.

(** The loop of [setupCores] over the levels still to visit. *)
Fixpoint range_levels (sem : LoopVar) (cfg : ZapConfig) (encoder : zapcore.Encoder)
  (shared : nat) (todo : list zapcore.Level) (cores : list zapcore.Core)
  (w : World) : World * Result (list zapcore.Core) :=
  match todo with
  | [] => (w, Ok cores)
  | level :: rest =>
      let '(h1, cell) := bind_level sem shared level (heap w) in
      let '(s1, r) :=
        getLogWriter cfg (zapcore.Level_String level +:+ ".log") (sys w) in
      let w1 := mkWorld s1 h1 (sugaredLogger w) in
      match r with
      | Err err =>
          (w1, Err (errorString ("failed to create log file for level "
                                 +:+ zapcore.Level_String level +:+ ": "
                                 +:+ error_Error err)))
      | Ok writer =>
          let core := zapcore.NewCore encoder writer (zapcore.EqualsCell cell) in
          range_levels sem cfg encoder shared rest (cores ++ [core]) w1
      end
  end.

(** [setupCores] sets up the cores for the different log levels. *)
Definition setupCores (sem : LoopVar) (cfg : ZapConfig) (w : World)
  : World * Result (list zapcore.Core) :=
  let encoderConfig := EncoderConfig cfg in
  let encoder :=
    if String.eqb (Format cfg) "json"
    then zapcore.mkEncoder zapcore.JSONEncoder encoderConfig
    else zapcore.mkEncoder zapcore.ConsoleEncoder encoderConfig in
  match sem with
  | PerIteration => range_levels sem cfg encoder 0%nat levels [] w
  | PerLoop =>
      range_levels sem cfg encoder (length (heap w)) levels []
        (mkWorld (sys w) (heap w ++ [0]) (sugaredLogger w))
  end.

(** [initLogger] initializes the logger based on the given configuration. *)
Definition initLogger (sem : LoopVar) (cfg : ZapConfig) (w : World)
  : World * option error :=
  let '(s1, (ok, _)) := pathExists (Director cfg) (sys w) in
  let build (w1 : World) : World * option error :=
    let '(w2, r) := setupCores sem cfg w1 in
    match r with
    | Err err => (w2, Some err)
    | Ok cores =>
        let logger := zap.New (zapcore.NewTee cores) [zap.AddCaller] in
        (mkWorld (sys w2) (heap w2) (Some (zap.Sugar logger)), None)
    end in
  if negb ok then
    let s2 := os.print ("create " +:+ Director cfg +:+ " directory"
                        +:+ zapcore.DefaultLineEnding) s1 in
    let '(s3, failed) := os.Mkdir (Director cfg) os.ModePerm s2 in
    match failed with
    | Some err =>
        (with_sys s3 w,
         Some (errorString ("failed to create directory " +:+ Director cfg
                            +:+ ": " +:+ error_Error err)))
    | None => build (with_sys s3 w)
    end
  else build (with_sys s1 w).

(** What viper makes of a configuration file: it cannot be read, its [zap]
    key cannot be unmarshalled, or it gives a configuration. *)
Inductive Loaded : Type :=
| ReadFailed (err : error)
| UnmarshalFailed (err : error)
| Unmarshalled (c : ZapConfig).

(** [Init] initializes the logger by loading the configuration file. *)
Definition Init (sem : LoopVar) (viper : string -> Loaded) (configFile : string)
  (w : World) : World * option error :=
  match viper configFile with
  | ReadFailed err =>
      (w, Some (errorString ("error reading config file: " +:+ error_Error err)))
  | UnmarshalFailed err =>
      (w, Some (errorString ("error unmarshalling config to struct: "
                             +:+ error_Error err)))
  | Unmarshalled zapConfig => initLogger sem zapConfig w
  end.

(** How a call of an emit function ends. *)
Inductive Outcome : Type :=
| Returns (w : World)
| Exits (w : World) (code : Z)
| Panics (w : World) (msg : string)
| NilDereference.

(** The body shared by the emit functions: [msg] is the message the sugared
    logger formats from the arguments ([fmt.Sprint], or [fmt.Sprintf] with
    the template). *)
Definition emit (lvl : zapcore.Level) (msg : string)
  (site : zapcore.EntryCaller) (now : zapcore.Time) (w : World) : Outcome :=
  match sugaredLogger w with
  | None => NilDereference
  | Some sl =>
      let '(s1, after) := zap.log (heap w) (zap.base sl) lvl msg site now (sys w) in
      match after with
      | zap.Continue => Returns (with_sys s1 w)
      | zap.Exit code => Exits (with_sys s1 w) code
      | zap.Panic m => Panics (with_sys s1 w) m
      end
  end.

Definition Info := emit zapcore.InfoLevel.
Definition Infof := emit zapcore.InfoLevel.
Definition Error := emit zapcore.ErrorLevel.
Definition Errorf := emit zapcore.ErrorLevel.
Definition Debug := emit zapcore.DebugLevel.
Definition Debugf := emit zapcore.DebugLevel.
Definition Warn := emit zapcore.WarnLevel.
Definition Warnf := emit zapcore.WarnLevel.
Definition Fatal := emit zapcore.FatalLevel.
Definition Fatalf := emit zapcore.FatalLevel.

(** ** The package [model]: the names of the configuration keys *)

Module model.

Definition CC : string := "custom_config".
Definition CN : string := "用户自定义默认key".
Definition TXSECRETID : string := "tx_secretid".
Definition TXSECRETKEY : string := "tx_secretkey".
Definition TXAPIURL : string := "tx_apiurl".
Definition TXREGION : string := "tx_region".
Definition BGSAVECOMMAND : string := "redis_bgsave".

Definition CfgDefault : list string :=
  [TXSECRETID; TXSECRETKEY; TXAPIURL; TXREGION].

(** [init], on what the map [DefaultName] holds when it runs. *)
Definition init (names : gmap string string) : gmap string string :=
  <[BGSAVECOMMAND := "bgsave别名"]>
    (<[TXAPIURL := "腾讯APIURL"]>
       (<[TXSECRETKEY := "腾讯TXSECRETKEY"]>
          (<[TXSECRETID := "腾讯SECRETID"]> names))).

(** [DefaultName]: made empty, then filled by [init]. *)
Definition DefaultName : gmap string string := init ∅.

(** Indexing a Go map: the zero value for a key that is not there. *)
Definition index (names : gmap string string) (key : string) : string :=
  default "" (names !! key).

End model.

(** ** Vocabulary of the statements *)

(** The call [getLogWriter] issues for a level, and the handle it gets. *)
Definition log_path (cfg : ZapConfig) (l : zapcore.Level) : string :=
  filepath.Join [Director cfg; zapcore.Level_String l +:+ ".log"].

Definition open_call (cfg : ZapConfig) (l : zapcore.Level) : os.Syscall :=
  os.SysOpenFile (log_path cfg l) log_flags log_perm.

Definition sink_of (cfg : ZapConfig) (l : zapcore.Level) : os.File :=
  os.Opened (filepath.Clean (log_path cfg l)) log_flags.

(** The encoder [setupCores] builds once and gives to every core. *)
Definition encoder_of (cfg : ZapConfig) : zapcore.Encoder :=
  zapcore.mkEncoder
    (if String.eqb (Format cfg) "json" then zapcore.JSONEncoder
     else zapcore.ConsoleEncoder)
    (EncoderConfig cfg).

Definition is_directory (s : os.State) (key : string) : Prop :=
  os.nodes s !! key = Some os.Directory.

(** The calls of the directory handling of [initLogger]. *)
Definition stat_call (cfg : ZapConfig) : os.Syscall := os.SysStat (Director cfg).
Definition mkdir_call (cfg : ZapConfig) : os.Syscall :=
  os.SysMkdir (Director cfg) os.ModePerm.

(** Two configurations that agree on every field but the level threshold,
    the prefix, the console flag and the retention days. *)
Definition same_but_unused (c1 c2 : ZapConfig) : Prop :=
  Format c1 = Format c2 /\ Director c1 = Director c2 /\
  EncodeLevel c1 = EncodeLevel c2 /\ StacktraceKey c1 = StacktraceKey c2 /\
  ShowLine c1 = ShowLine c2 /\ CustomLevelEncoder c1 = CustomLevelEncoder c2.

Definition is_file_sink (f : os.File) : bool :=
  match f with
  | os.Opened _ _ => true
  | _ => false
  end.

(** The cells the closures of a run of the loop hold, one per level visited:
    fresh ones when every iteration has its own variable, the shared one
    throughout otherwise. *)
Definition cells_of (sem : LoopVar) (shared : nat) (h : list zapcore.Level)
  (n : nat) : list nat :=
  match sem with
  | PerIteration => seq (length h) n
  | PerLoop => replicate n shared
  end.

(** The heap after the loop has bound the variable to each level in turn. *)
Definition heap_after (sem : LoopVar) (shared : nat) (h : list zapcore.Level)
  (visited : list zapcore.Level) : list zapcore.Level :=
  match sem with
  | PerIteration => h ++ visited
  | PerLoop => fold_left (fun h l => <[shared := l]> h) visited h
  end.

(** The cores a run of the loop appends. *)
Definition cores_of (cfg : ZapConfig) (encoder : zapcore.Encoder)
  (cells : list nat) (visited : list zapcore.Level) : list zapcore.Core :=
  zip_with (fun cell l =>
              zapcore.NewCore encoder (sink_of cfg l) (zapcore.EqualsCell cell))
           cells visited.

(** The error [setupCores] makes of a failed open. *)
Definition log_file_error (cfg : ZapConfig) (l : zapcore.Level) (errno : Errno)
  : error :=
  errorString ("failed to create log file for level "
               +:+ zapcore.Level_String l +:+ ": "
               +:+ error_Error (PathError "open" (log_path cfg l) errno)).

(** The error [initLogger] makes of a failed directory creation. *)
Definition mkdir_error (cfg : ZapConfig) (errno : Errno) : error :=
  errorString ("failed to create directory " +:+ Director cfg +:+ ": "
               +:+ error_Error (PathError "mkdir" (Director cfg) errno)).

Definition is_open (c : os.Syscall) : bool :=
  match c with
  | os.SysOpenFile _ _ _ => true
  | _ => false
  end.

(** Whether [os.Stat] succeeds on a path, and whether [os.Mkdir] can make a
    directory there: no failure is imposed, nothing is at the path, and its
    parent is a directory. *)
Definition stat_finds (s : os.State) (path : string) : bool :=
  match os.fault s (os.SysStat path) with
  | Some _ => false
  | None => bool_decide (is_Some (os.resolve s path))
  end.

Definition mkdir_can (s : os.State) (name : string) (perm : Z) : bool :=
  match os.fault s (os.SysMkdir name perm), os.resolve s name,
        os.parent s name with
  | None, None, Some os.Directory => true
  | _, _, _ => false
  end.

(** The line [initLogger] prints before it makes the directory. *)
Definition create_notice (cfg : ZapConfig) : string :=
  "create " +:+ Director cfg +:+ " directory" +:+ zapcore.DefaultLineEnding.

(** The two halves of [initLogger]: the handling of the directory, and the
    build and installation of the logger. *)
Definition prepare (cfg : ZapConfig) (w : World) : World * option error :=
  let '(s1, (ok, _)) := pathExists (Director cfg) (sys w) in
  if negb ok then
    let '(s3, failed) :=
      os.Mkdir (Director cfg) os.ModePerm (os.print (create_notice cfg) s1) in
    match failed with
    | Some err =>
        (with_sys s3 w,
         Some (errorString ("failed to create directory " +:+ Director cfg
                            +:+ ": " +:+ error_Error err)))
    | None => (with_sys s3 w, None)
    end
  else (with_sys s1 w, None).

Definition install (sem : LoopVar) (cfg : ZapConfig) (w : World)
  : World * option error :=
  let '(w2, r) := setupCores sem cfg w in
  match r with
  | Err err => (w2, Some err)
  | Ok cores =>
      (mkWorld (sys w2) (heap w2)
         (Some (zap.Sugar (zap.New (zapcore.NewTee cores) [zap.AddCaller]))),
       None)
  end.

(** Concrete inputs: an empty file system without imposed failures, a fresh
    process, and a configuration in the style of the project's file. *)
Definition empty_sys : os.State := os.mkState ∅ (fun _ => None) [] [].

Definition fresh : World := mkWorld empty_sys [] None.

Definition demo_cfg : ZapConfig :=
  mkZapConfig "info" "[redis-manager]" "console" "logs" "lowercase"
    "stacktrace" false true 7 true.

Definition demo_site : zapcore.EntryCaller :=
  zapcore.mkCaller true "/src/redis-manager/logger/logger.go" 171.

Definition demo_now : zapcore.Time := zapcore.mkTime 2024 3 5 7 8 9 12.

(** The same configuration with the named style and the encoding kind not
    among the recognised ones, and the bracket flag off. *)
Definition odd_cfg : ZapConfig :=
  mkZapConfig "debug" "" "yaml" "logs" "fancy" "stack" true false 0 false.

(** The process once the directory is there, and after a first, successful
    initialisation. *)
Definition demo_prepared : World := fst (prepare demo_cfg fresh).

Definition demo_ready : World := fst (initLogger PerIteration demo_cfg fresh).

Definition installed_cores (w : World) : list zapcore.Core :=
  match sugaredLogger w with
  | Some sl => zap.core (zap.base sl)
  | None => []
  end.

(** [strings.ToUpper] on the ASCII letters. *)
Definition upper_ascii (c : ascii) : ascii :=
  let n := nat_of_ascii c in
  if (97 <=? n)%nat && (n <=? 122)%nat then ascii_of_nat (n - 32) else c.

Fixpoint ToUpper (s : string) : string :=
  match s with
  | EmptyString => EmptyString
  | String c rest => String (upper_ascii c) (ToUpper rest)
  end.


(** The process after one [Info] call, and the line that call wrote. *)
Definition logged : World :=
  match Info "ready" demo_site demo_now demo_ready with
  | Returns w => w
  | _ => demo_ready
  end.

Definition demo_line : string :=
  zapcore.EncodeEntry (encoder_of demo_cfg)
    (zapcore.mkEntry zapcore.InfoLevel demo_now "" "ready" demo_site "").

(** A file system where a stat of the directory is refused, although the
    directory is there. *)
Definition unreadable : World :=
  mkWorld
    (os.mkState (os.nodes (sys demo_ready))
       (fun c => match c with
                 | os.SysStat _ => Some EACCES
                 | _ => None
                 end)
       [] [])
    [] None.

(** A configuration whose directory lies below a directory that is not
    there. *)
Definition deep_cfg : ZapConfig :=
  mkZapConfig "info" "" "json" "var/logs" "capital" "stacktrace" true false 7 false.

(** The keyed values of the lines one log call writes, one list per core
    that takes the entry. *)
Definition emitted_fields (w : World) (lvl : zapcore.Level) (msg : string)
  (site : zapcore.EntryCaller) (now : zapcore.Time)
  : list (list (string * string)) :=
  match sugaredLogger w with
  | Some sl =>
      map (fun c => zapcore.entry_fields (zapcore.enc c)
                      (zap.entry_of (zap.base sl) lvl msg site now))
          (zapcore.Check (heap w) (zap.core (zap.base sl)) lvl)
  | None => []
  end.

Definition with_ShowLine (b : bool) (c : ZapConfig) : ZapConfig :=
  mkZapConfig (Level c) (Prefix c) (Format c) (Director c) (EncodeLevel c)
    (StacktraceKey c) b (LogInConsole c) (RetentionDay c) (CustomLevelEncoder c).

(** The fields [initLogger] reads. *)
Definition same_read_fields (c1 c2 : ZapConfig) : Prop :=
  Format c1 = Format c2 /\ Director c1 = Director c2 /\
  EncodeLevel c1 = EncodeLevel c2 /\ StacktraceKey c1 = StacktraceKey c2 /\
  CustomLevelEncoder c1 = CustomLevelEncoder c2.

(** The demonstration configuration with another threshold, prefix,
    console flag and retention. *)
Definition demo_cfg_other : ZapConfig :=
  mkZapConfig "error" "[other]" "console" "logs" "lowercase" "stacktrace"
    false false 30 true.

(** Paths that the lexical functions leave as they are: elements without
    separator that are neither empty nor dot nor dot-dot, joined by single
    separators, below the root or relative. *)
Fixpoint has_slash (s : string) : bool :=
  match s with
  | EmptyString => false
  | String c rest => Ascii.eqb c "/"%char || has_slash rest
  end.

Definition plain (s : string) : bool :=
  negb (has_slash s) && negb (String.eqb s "") && negb (String.eqb s ".")
  && negb (String.eqb s "..").

Definition clean_path (root : bool) (elems : list string) : string :=
  (if root then "/" else "") +:+ String.concat "/" elems.

(** The process a call of an emit function leaves behind, if any. *)
Definition world_after (o : Outcome) : option World :=
  match o with
  | Returns w | Exits w _ | Panics w _ => Some w
  | NilDereference => None
  end.

(** The line a logger of the package writes for a message, with callers
    annotated. *)
Definition line_of (cfg : ZapConfig) (lvl : zapcore.Level) (msg : string)
  (site : zapcore.EntryCaller) (now : zapcore.Time) : string :=
  zapcore.EncodeEntry (encoder_of cfg) (zapcore.mkEntry lvl now "" msg site "").

(** The rendering of the elements [Clean] keeps, below the root or
    relative. *)
Definition render (r : bool) (kept : list string) : string :=
  if r then "/" +:+ String.concat "/" kept
  else match kept with
       | [] => "."
       | _ => String.concat "/" kept
       end.

(** The elements of a cleaned path, first to last: dot-dots, none of them
    below the root, then plain elements.  [shape] is the same of the stack
    of the scan, last element first. *)
Definition cleaned (r : bool) (kept : list string) : Prop :=
  exists n ps,
    kept = replicate n ".." ++ ps /\
    Forall (fun e => plain e = true) ps /\
    (r = true -> n = 0%nat).

Definition shape (r : bool) (stack : list string) : Prop :=
  exists n ps,
    stack = ps ++ replicate n ".." /\
    Forall (fun e => plain e = true) ps /\
    (r = true -> n = 0%nat).

(** The ten emit functions of the package. *)
Definition emit_functions
  : list (string -> zapcore.EntryCaller -> zapcore.Time -> World -> Outcome) :=
  [Info; Infof; Error; Errorf; Debug; Debugf; Warn; Warnf; Fatal; Fatalf].

(** A fresh process on an empty file system whose environment refuses to
    open the file of [WarnLevel]. *)
Definition refusing : World :=
  mkWorld
    (os.mkState ∅
       (fun c => match c with
                 | os.SysOpenFile name _ _ =>
                     if String.eqb name "logs/warn.log" then Some EACCES else None
                 | _ => None
                 end)
       [] [])
    [] None.

(** A loader that knows one good configuration file and one whose [zap] key
    has the wrong shape; any other file is missing. *)
Definition demo_viper (configFile : string) : Loaded :=
  if String.eqb configFile "config.yaml" then Unmarshalled demo_cfg
  else if String.eqb configFile "broken.yaml"
       then UnmarshalFailed (errorString "'zap' expected a map, got 'string'")
       else ReadFailed (PathError "open" configFile ENOENT).

(** A program's log calls, one after the other: the level of the emit
    function called, its message, the call site and the time.  The sequence
    ends with the first call that does not return. *)
Definition Call : Type :=
  (Z * string * zapcore.EntryCaller * zapcore.Time)%type.

Fixpoint emit_all (calls : list Call) (w : World) : Outcome :=
  match calls with
  | [] => Returns w
  | (lvl, msg, site, now) :: rest =>
      match emit lvl msg site now w with
      | Returns w1 => emit_all rest w1
      | o => o
      end
  end.

(** A file system that has only grown: directories and absent paths as they
    were, regular files with their former content as a prefix. *)
Definition grown (s s' : os.State) : Prop :=
  forall k,
    match os.nodes s !! k with
    | Some (os.Regular content) =>
        exists more, os.nodes s' !! k = Some (os.Regular (content ++ more))
    | other => os.nodes s' !! k = other
    end.

(** Cores on files opened the way [getLogWriter] opens them. *)
Definition package_sinks (cores : list zapcore.Core) : Prop :=
  Forall (fun c => exists key, zapcore.out c = os.Opened key log_flags) cores.

Definition demo_calls : list Call :=
  [(zapcore.InfoLevel, "ready", demo_site, demo_now);
   (zapcore.WarnLevel, "slow", demo_site, demo_now);
   (zapcore.InfoLevel, "again", demo_site, demo_now);
   (zapcore.FatalLevel, "gone", demo_site, demo_now);
   (zapcore.InfoLevel, "never", demo_site, demo_now)].

Definition demo_after : World :=
  match world_after (emit_all demo_calls demo_ready) with
  | Some w => w
  | None => demo_ready
  end.

(** A time whose clock fields are in their ranges. *)
Definition valid_time (t : zapcore.Time) : Prop :=
  0 <= zapcore.year t < 10000 /\ 1 <= zapcore.month t <= 12 /\
  1 <= zapcore.day t <= 31 /\ 0 <= zapcore.hour t < 24 /\
  0 <= zapcore.minute t < 60 /\ 0 <= zapcore.second t < 60 /\
  0 <= zapcore.millisecond t < 1000.

Definition is_digit (c : ascii) : bool :=
  let n := nat_of_ascii c in (48 <=? n)%nat && (n <=? 57)%nat.

Fixpoint all_digits (s : string) : bool :=
  match s with
  | EmptyString => true
  | String c rest => is_digit c && all_digits rest
  end.


(** The cores [setupCores] builds for the configuration with the
    unrecognised style and format, once the directory is there. *)
Definition odd_cores : list zapcore.Core :=
  match snd (setupCores PerIteration odd_cfg demo_prepared) with
  | Ok cores => cores
  | Err _ => []
  end.

(** * Properties *)

(** ** The flags of a log file *)

Lemma log_flags_bits :
  os.has_flag log_flags os.O_APPEND = true /\
  os.has_flag log_flags os.O_CREATE = true /\
  os.has_flag log_flags os.O_WRONLY = true /\
  os.has_flag log_flags os.O_TRUNC = false /\
  os.has_flag log_flags os.O_EXCL = false /\
  Z.land log_flags 3 = os.O_WRONLY.
Proof. repeat split; reflexivity. Qed.

(** ** The file-system calls *)

(** Where nothing is but the directory part is there, the node is free. *)
Lemma resolve_None s name :
  os.resolve s name = None -> is_Some (os.parent s name) ->
  os.nodes s !! filepath.Clean name = None.
Proof.
  unfold os.resolve, os.parent.
  destruct (String.eqb name ""); [intros _ [n Hn]; done|].
  destruct (os.always_there _); done.
Qed.

Lemma resolve_Regular s name content :
  os.resolve s name = Some (os.Regular content) ->
  os.nodes s !! filepath.Clean name = Some (os.Regular content).
Proof.
  unfold os.resolve. destruct (String.eqb name ""); [done|].
  destruct (os.always_there _); done.
Qed.

(** Opening a log file issues one call, keeps every node there is, adds no
    directory, and hands out the handle of the cleaned path. *)
Lemma OpenFile_log name s s' r :
  os.OpenFile name log_flags log_perm s = (s', r) ->
  os.calls s' = os.calls s ++ [os.SysOpenFile name log_flags log_perm] /\
  os.fault s' = os.fault s /\
  os.stdout s' = os.stdout s /\
  (forall k n, os.nodes s !! k = Some n -> os.nodes s' !! k = Some n) /\
  (forall k, is_directory s' k -> is_directory s k) /\
  match r with
  | Ok f => f = os.Opened (filepath.Clean name) log_flags
  | Err e => (exists errno, e = PathError "open" name errno) /\
             os.nodes s' = os.nodes s
  end.
Proof.
  unfold os.OpenFile, is_directory.
  destruct log_flags_bits as (_ & Hc & _ & Ht & Hx & _).
  rewrite Hc, Ht, Hx. cbn [andb].
  destruct (os.fault s _) as [e|].
  { intros [= <- <-]. cbn. repeat split; eauto. }
  destruct (os.resolve s name) as [[|content]|] eqn:Hres.
  - intros [= <- <-]. cbn. repeat split; eauto.
  - intros [= <- <-]. cbn. repeat split; eauto.
  - destruct (os.parent s name) as [[|c]|] eqn:Hpar;
      intros [= <- <-]; cbn; repeat split; eauto.
    + intros k n Hk. rewrite lookup_insert_ne; [done|].
      intros <-. rewrite (resolve_None _ _ Hres) in Hk; [done|].
      rewrite Hpar. done.
    + intros k. rewrite lookup_insert.
      case_decide; [done|done].
Qed.

Lemma getLogWriter_OpenFile cfg filename s :
  getLogWriter cfg filename s =
  os.OpenFile (filepath.Join [Director cfg; filename]) log_flags log_perm s.
Proof.
  unfold getLogWriter.
  destruct (os.OpenFile _ _ _ s) as [s1 [f|e]]; reflexivity.
Qed.

(** ** The loop of [setupCores] *)

Section Loop.

Variables (sem : LoopVar) (cfg : ZapConfig) (encoder : zapcore.Encoder)
          (shared : nat).

(** One unfolding of the loop, with the open call made explicit. *)
Lemma range_levels_step level rest cores w :
  range_levels sem cfg encoder shared (level :: rest) cores w =
  let '(h1, cell) := bind_level sem shared level (heap w) in
  let '(s1, r) := os.OpenFile (log_path cfg level) log_flags log_perm (sys w) in
  let w1 := mkWorld s1 h1 (sugaredLogger w) in
  match r with
  | Err err =>
      (w1, Err (errorString ("failed to create log file for level "
                             +:+ zapcore.Level_String level +:+ ": "
                             +:+ error_Error err)))
  | Ok writer =>
      range_levels sem cfg encoder shared rest
        (cores ++ [zapcore.NewCore encoder writer (zapcore.EqualsCell cell)]) w1
  end.
Proof. cbn [range_levels]. rewrite getLogWriter_OpenFile. reflexivity. Qed.

(** The loop leaves the installed logger, the imposed failures and standard
    output alone; it keeps every node and adds no directory. *)
Lemma range_levels_frame todo : forall cores w w' r,
  range_levels sem cfg encoder shared todo cores w = (w', r) ->
  sugaredLogger w' = sugaredLogger w /\
  os.fault (sys w') = os.fault (sys w) /\
  os.stdout (sys w') = os.stdout (sys w) /\
  (forall k n, os.nodes (sys w) !! k = Some n -> os.nodes (sys w') !! k = Some n) /\
  (forall k, is_directory (sys w') k -> is_directory (sys w) k).
Proof.
  induction todo as [|level rest IH]; intros cores w w' r.
  { intros [= <- <-]. repeat split; eauto. }
  rewrite range_levels_step.
  destruct (bind_level _ _ _ _) as [h1 cell].
  destruct (os.OpenFile _ _ _ _) as [s1 r1] eqn:Hopen.
  apply OpenFile_log in Hopen as (_ & Hf & Hso & Hkeep & Hdir & _).
  destruct r1 as [writer|err].
  - intros Hrest. apply IH in Hrest as (Hl & Hf' & Hso' & Hkeep' & Hdir').
    cbn in *. repeat split; try congruence; eauto.
  - intros [= <- <-]. cbn. repeat split; eauto.
Qed.

(** A run that ends well visited every level: it appended one core per
    level, in order, and issued one open call per level, in order. *)
Lemma range_levels_Ok todo : forall cores w w' cs,
  range_levels sem cfg encoder shared todo cores w = (w', Ok cs) ->
  cs = cores ++ cores_of cfg encoder
                  (cells_of sem shared (heap w) (length todo)) todo /\
  heap w' = heap_after sem shared (heap w) todo /\
  os.calls (sys w') = os.calls (sys w) ++ map (open_call cfg) todo.
Proof.
  induction todo as [|level rest IH]; intros cores w w' cs.
  { intros [= <- <-]. unfold cores_of, heap_after.
    destruct sem; cbn; rewrite !app_nil_r; done. }
  rewrite range_levels_step.
  destruct (bind_level _ _ _ _) as [h1 cell] eqn:Hbind.
  destruct (os.OpenFile _ _ _ _) as [s1 r1] eqn:Hopen.
  apply OpenFile_log in Hopen as (Hcalls & _ & _ & _ & _ & Hr).
  destruct r1 as [writer|err]; [|done].
  intros Hrest. apply IH in Hrest as (-> & -> & ->). cbn [heap sys].
  rewrite Hcalls, Hr, <- !app_assoc. cbn [map app].
  unfold bind_level in Hbind. unfold cells_of, heap_after, cores_of.
  destruct sem; simplify_eq.
  - rewrite length_app, Nat.add_1_r. cbn [length seq zip_with app].
    rewrite <- app_assoc. done.
  - done.
Qed.

(** A run that fails stopped at the level whose file could not be opened:
    the error names that level, and no call follows the failed one. *)
Lemma range_levels_Err todo : forall cores w w' err,
  range_levels sem cfg encoder shared todo cores w = (w', Err err) ->
  exists visited level rest errno,
    todo = visited ++ level :: rest /\
    err = log_file_error cfg level errno /\
    os.calls (sys w') =
      os.calls (sys w) ++ map (open_call cfg) (visited ++ [level]).
Proof.
  induction todo as [|level rest IH]; intros cores w w' err; [done|].
  rewrite range_levels_step.
  destruct (bind_level _ _ _ _) as [h1 cell].
  destruct (os.OpenFile _ _ _ _) as [s1 r1] eqn:Hopen.
  apply OpenFile_log in Hopen as (Hcalls & _ & _ & _ & _ & Hr).
  destruct r1 as [writer|e].
  - intros Hrest. apply IH in Hrest as (visited & l & rest' & errno & -> & -> & ->).
    exists (level :: visited), l, rest', errno. cbn [sys].
    rewrite Hcalls, <- app_assoc. done.
  - intros [= <- <-]. destruct Hr as [[errno ->] _].
    exists [], level, rest, errno. cbn. done.
Qed.

End Loop.

(** ** [setupCores] *)

Lemma setupCores_range cfg sem w :
  setupCores sem cfg w =
  match sem with
  | PerIteration => range_levels sem cfg (encoder_of cfg) 0%nat levels [] w
  | PerLoop =>
      range_levels sem cfg (encoder_of cfg) (length (heap w)) levels []
        (mkWorld (sys w) (heap w ++ [0]) (sugaredLogger w))
  end.
Proof.
  unfold setupCores, encoder_of. destruct (String.eqb _ _); reflexivity.
Qed.

Lemma setupCores_frame sem cfg w w' r :
  setupCores sem cfg w = (w', r) ->
  sugaredLogger w' = sugaredLogger w /\
  os.fault (sys w') = os.fault (sys w) /\
  os.stdout (sys w') = os.stdout (sys w) /\
  (forall k n, os.nodes (sys w) !! k = Some n -> os.nodes (sys w') !! k = Some n) /\
  (forall k, is_directory (sys w') k -> is_directory (sys w) k).
Proof.
  rewrite setupCores_range.
  destruct sem; intros H; apply range_levels_frame in H; exact H.
Qed.

(** A build that ends well made the cores of all the levels, in the order
    of [levels], each on the file of its level and with the one encoder, and
    issued the open calls of all the levels in that order. *)
Lemma setupCores_Ok sem cfg w w' cs :
  setupCores sem cfg w = (w', Ok cs) ->
  cs = cores_of cfg (encoder_of cfg)
         (cells_of sem (length (heap w)) (heap w) (length levels)) levels /\
  heap w' = match sem with
            | PerIteration => heap w ++ levels
            | PerLoop => heap_after PerLoop (length (heap w)) (heap w ++ [0]) levels
            end /\
  os.calls (sys w') = os.calls (sys w) ++ map (open_call cfg) levels.
Proof.
  rewrite setupCores_range.
  destruct sem; intros H; apply range_levels_Ok in H as (-> & -> & ->);
    cbn [app heap sys]; done.
Qed.

Lemma setupCores_Err sem cfg w w' err :
  setupCores sem cfg w = (w', Err err) ->
  exists visited level rest errno,
    levels = visited ++ level :: rest /\
    err = log_file_error cfg level errno /\
    os.calls (sys w') =
      os.calls (sys w) ++ map (open_call cfg) (visited ++ [level]).
Proof.
  rewrite setupCores_range.
  destruct sem; intros H; apply range_levels_Err in H; exact H.
Qed.

Lemma cores_of_length cfg e cells ls :
  length cells = length ls -> length (cores_of cfg e cells ls) = length ls.
Proof. intros H. unfold cores_of. rewrite length_zip_with. lia. Qed.

Lemma cores_of_out cfg e : forall cells ls,
  length cells = length ls ->
  map zapcore.out (cores_of cfg e cells ls) = map (sink_of cfg) ls.
Proof.
  induction cells as [|c cells IH]; intros [|l ls]; cbn; try done.
  intros [= H]. f_equal. apply IH, H.
Qed.

Lemma cores_of_enc cfg e cells ls :
  Forall (fun c => zapcore.enc c = e) (cores_of cfg e cells ls).
Proof.
  revert ls. induction cells as [|c cells IH]; intros [|l ls]; cbn;
    constructor; [done | apply IH].
Qed.

Lemma cells_of_length sem shared h n : length (cells_of sem shared h n) = n.
Proof. destruct sem; cbn; [apply length_seq | apply length_replicate]. Qed.

(** ** Which cores take an entry *)

(** When every core's cell holds the level the core was made for, the cores
    that take an entry of a level are those made for that very level. *)
Lemma Check_cores_of cfg e h lvl : forall cells ls,
  Forall2 (fun cell l => h !! cell = Some l) cells ls ->
  map zapcore.out (zapcore.Check h (cores_of cfg e cells ls) lvl) =
  map (sink_of cfg) (filter (fun l => lvl = l) ls).
Proof.
  intros cells ls H. induction H as [|cell l cells ls Hcell _ IH]; [done|].
  unfold zapcore.Check, cores_of in *. cbn [zip_with].
  rewrite !filter_cons.
  assert (zapcore.Enabled h (zapcore.EqualsCell cell) lvl <-> lvl = l) as Hen.
  { cbn. rewrite Hcell. destruct (Z.eqb_spec lvl l); naive_solver. }
  cbn [zapcore.enab].
  destruct (decide (lvl = l)) as [Heq|Hne].
  - rewrite decide_True by (apply Hen, Heq). cbn [map]. f_equal. exact IH.
  - rewrite decide_False by (rewrite Hen; exact Hne). exact IH.
Qed.

Lemma filter_eq_NoDup (lvl : Z) (ls : list Z) :
  NoDup ls ->
  filter (fun l => lvl = l) ls = if bool_decide (lvl ∈ ls) then [lvl] else [].
Proof.
  induction 1 as [|l ls Hl _ IH]; [done|].
  rewrite filter_cons, IH. destruct (decide (lvl = l)) as [<-|Hne].
  - rewrite (bool_decide_eq_false_2 (lvl ∈ ls)) by done.
    rewrite bool_decide_eq_true_2 by set_solver. done.
  - destruct (bool_decide (lvl ∈ ls)) eqn:Hin.
    + apply bool_decide_eq_true in Hin.
      rewrite bool_decide_eq_true_2 by set_solver. done.
    + apply bool_decide_eq_false in Hin.
      rewrite bool_decide_eq_false_2 by (rewrite elem_of_cons; intros [?|?]; done).
      done.
Qed.

(** With a variable per iteration, the cell of the i-th closure holds the
    i-th level for good. *)
Lemma fresh_cells_hold : forall (ls h : list zapcore.Level),
  Forall2 (fun cell l => (h ++ ls) !! cell = Some l)
          (seq (length h) (length ls)) ls.
Proof.
  induction ls as [|l ls IH]; intros h; cbn [length seq]; constructor.
  - apply list_lookup_middle. done.
  - specialize (IH (h ++ [l])).
    rewrite <- app_assoc, length_app, Nat.add_1_r in IH. exact IH.
Qed.

(** With one variable for the whole loop, that variable ends up holding the
    last level, whatever closure reads it. *)
Lemma shared_cell_holds (i : nat) : forall (ls h : list zapcore.Level),
  (i < length h)%nat ->
  fold_left (fun h l => <[i := l]> h) ls h !! i =
  match last ls with
  | Some l => Some l
  | None => h !! i
  end.
Proof.
  induction ls as [|l ls IH]; intros h Hi; [done|].
  cbn [fold_left]. rewrite IH by (rewrite length_insert; done).
  rewrite list_lookup_insert_eq by done.
  rewrite last_cons. destruct (last ls); done.
Qed.

Lemma levels_NoDup : NoDup levels.
Proof. apply (bool_decide_unpack (NoDup levels)). vm_compute. exact I. Qed.

(** ** [initLogger] in two halves *)

Lemma initLogger_halves sem cfg w :
  initLogger sem cfg w =
  match prepare cfg w with
  | (w1, Some err) => (w1, Some err)
  | (w1, None) => install sem cfg w1
  end.
Proof.
  unfold initLogger, prepare, install, create_notice.
  destruct (pathExists _ _) as [s1 [ok e]].
  destruct ok; cbn [negb]; [reflexivity|].
  destruct (os.Mkdir _ _ _) as [s3 [err|]]; reflexivity.
Qed.

Lemma pathExists_stat path s :
  pathExists path s =
  (os.issue (os.SysStat path) s,
   (stat_finds s path,
    match os.fault s (os.SysStat path) with
    | Some ENOENT => None
    | Some e => Some (PathError "stat" path e)
    | None => None
    end)).
Proof.
  unfold pathExists, os.Stat, stat_finds.
  destruct (os.fault s _) as [[]|]; try reflexivity.
  destruct (os.resolve s path); reflexivity.
Qed.

Lemma Mkdir_can name perm s :
  os.Mkdir name perm s =
  (os.mkState
     (if mkdir_can s name perm
      then <[filepath.Clean name := os.Directory]> (os.nodes s)
      else os.nodes s)
     (os.fault s) (os.calls s ++ [os.SysMkdir name perm]) (os.stdout s),
   if mkdir_can s name perm then None
   else Some (PathError "mkdir" name
                match os.fault s (os.SysMkdir name perm), os.resolve s name,
                      os.parent s name with
                | Some e, _, _ => e
                | None, Some _, _ => EEXIST
                | None, None, Some _ => ENOTDIR
                | None, None, None => ENOENT
                end)).
Proof.
  unfold os.Mkdir, mkdir_can.
  destruct (os.fault s _) as [e|]; [reflexivity|].
  destruct (os.resolve s name); [reflexivity|].
  destruct (os.parent s name) as [[|c]|]; reflexivity.
Qed.

(** The directory handling: one stat; when it finds the path nothing else;
    otherwise the notice and one [os.Mkdir] of the configured path, whose
    failure is the error returned. *)
Lemma prepare_spec cfg w :
  let s := sys w in
  let dir := Director cfg in
  prepare cfg w =
  if stat_finds s dir then
    (with_sys (os.issue (stat_call cfg) s) w, None)
  else if mkdir_can s dir os.ModePerm then
    (with_sys
       (os.mkState (<[filepath.Clean dir := os.Directory]> (os.nodes s))
          (os.fault s) (os.calls s ++ [stat_call cfg; mkdir_call cfg])
          (os.stdout s ++ [create_notice cfg])) w, None)
  else
    (with_sys
       (os.mkState (os.nodes s) (os.fault s)
          (os.calls s ++ [stat_call cfg; mkdir_call cfg])
          (os.stdout s ++ [create_notice cfg])) w,
     Some (mkdir_error cfg
             match os.fault s (mkdir_call cfg), os.resolve s dir,
                   os.parent s dir with
             | Some e, _, _ => e
             | None, Some _, _ => EEXIST
             | None, None, Some _ => ENOTDIR
             | None, None, None => ENOENT
             end)).
Proof.
  cbn zeta. unfold prepare. rewrite pathExists_stat.
  destruct (stat_finds _ _); cbn [negb]; [reflexivity|].
  rewrite Mkdir_can.
  change (mkdir_can (os.print _ (os.issue _ (sys w))) (Director cfg) os.ModePerm)
    with (mkdir_can (sys w) (Director cfg) os.ModePerm).
  destruct (mkdir_can _ _ _); cbn; rewrite <- ?app_assoc; reflexivity.
Qed.

Lemma install_spec sem cfg w w' r :
  install sem cfg w = (w', r) ->
  match r with
  | Some err => setupCores sem cfg w = (w', Err err)
  | None =>
      exists w2 cs,
        setupCores sem cfg w = (w2, Ok cs) /\
        w' = mkWorld (sys w2) (heap w2)
               (Some (zap.Sugar (zap.mkLogger cs true)))
  end.
Proof.
  unfold install. destruct (setupCores sem cfg w) as [w2 [cs|err]].
  - intros [= <- <-]. exists w2, cs. done.
  - intros [= <- <-]. done.
Qed.

Lemma mkdir_can_free s name perm :
  mkdir_can s name perm = true ->
  os.fault s (os.SysMkdir name perm) = None /\
  os.resolve s name = None /\
  os.parent s name = Some os.Directory.
Proof.
  unfold mkdir_can.
  destruct (os.fault s _); [done|]. destruct (os.resolve s name); [done|].
  destruct (os.parent s name) as [[|c]|]; done.
Qed.

(** The directory handling touches neither the heap nor the installed
    logger nor the imposed failures, and keeps every node. *)
Lemma prepare_frame cfg w w1 r1 :
  prepare cfg w = (w1, r1) ->
  heap w1 = heap w /\
  sugaredLogger w1 = sugaredLogger w /\
  os.fault (sys w1) = os.fault (sys w) /\
  (forall k n, os.nodes (sys w) !! k = Some n -> os.nodes (sys w1) !! k = Some n).
Proof.
  rewrite prepare_spec. cbn zeta.
  destruct (stat_finds _ _); [|destruct (mkdir_can _ _ _) eqn:Hcan];
    intros [= <- <-]; cbn; repeat split; try done.
  intros k n Hk. apply mkdir_can_free in Hcan as (_ & Hfree & Hpar).
  apply resolve_None in Hfree; [|rewrite Hpar; done].
  rewrite lookup_insert_ne; [done|]. intros <-. congruence.
Qed.

Lemma initLogger_cases sem cfg w w' r :
  initLogger sem cfg w = (w', r) ->
  exists w1 r1,
    prepare cfg w = (w1, r1) /\
    match r1 with
    | Some err => w' = w1 /\ r = Some err
    | None => install sem cfg w1 = (w', r)
    end.
Proof.
  rewrite initLogger_halves. destruct (prepare cfg w) as [w1 [err|]] eqn:Hp.
  - intros [= <- <-]. exists w1, (Some err). done.
  - intros H. exists w1, None. done.
Qed.

(** A successful initialisation: the directory handling went through, the
    build made its cores, and the logger installed is the tee of exactly
    those cores, annotating callers. *)
Lemma initLogger_None sem cfg w w' :
  initLogger sem cfg w = (w', None) ->
  exists w1 w2 cs,
    prepare cfg w = (w1, None) /\
    setupCores sem cfg w1 = (w2, Ok cs) /\
    w' = mkWorld (sys w2) (heap w2) (Some (zap.Sugar (zap.mkLogger cs true))).
Proof.
  intros (w1 & [err|] & Hp & H)%initLogger_cases; [destruct H; done|].
  apply install_spec in H as (w2 & cs & Hs & ->).
  exists w1, w2, cs. done.
Qed.

(** A failed initialisation: the directory could not be made, or the build
    failed and its error is passed on as it is. *)
Lemma initLogger_Some sem cfg w w' err :
  initLogger sem cfg w = (w', Some err) ->
  prepare cfg w = (w', Some err) \/
  exists w1, prepare cfg w = (w1, None) /\ setupCores sem cfg w1 = (w', Err err).
Proof.
  intros (w1 & [e|] & Hp & H)%initLogger_cases.
  - destruct H as [-> [= ->]]. left. done.
  - apply install_spec in H. right. exists w1. done.
Qed.

(** ** The files of the levels *)

Lemma OpenFile_log_node name s s' f :
  os.OpenFile name log_flags log_perm s = (s', Ok f) ->
  exists content, os.nodes s' !! filepath.Clean name = Some (os.Regular content).
Proof.
  unfold os.OpenFile.
  destruct log_flags_bits as (_ & Hc & _ & Ht & Hx & _).
  rewrite Hc, Ht, Hx. cbn [andb].
  destruct (os.fault s _); [done|].
  destruct (os.resolve s name) as [[|content]|] eqn:Hres; [done| |].
  - intros [= <- _]. exists content. cbn. apply resolve_Regular, Hres.
  - destruct (os.parent s name) as [[|c]|]; [|done..].
    intros [= <- _]. exists []. cbn. apply lookup_insert_eq.
Qed.

(** After a run of the loop that ends well, the file of every level visited
    is a regular file. *)
Lemma range_levels_files sem cfg encoder shared todo : forall cores w w' cs,
  range_levels sem cfg encoder shared todo cores w = (w', Ok cs) ->
  forall l, l ∈ todo ->
  exists content,
    os.nodes (sys w') !! filepath.Clean (log_path cfg l) = Some (os.Regular content).
Proof.
  induction todo as [|level rest IH]; intros cores w w' cs H l Hl.
  { apply elem_of_nil in Hl. done. }
  rewrite range_levels_step in H.
  destruct (bind_level _ _ _ _) as [h1 cell].
  destruct (os.OpenFile _ _ _ _) as [s1 [writer|err]] eqn:Hopen; [|done].
  apply elem_of_cons in Hl as [->|Hl]; [|eapply IH; eauto].
  apply OpenFile_log_node in Hopen as [content Hnode].
  apply range_levels_frame in H as (_ & _ & _ & Hkeep & _).
  exists content. apply Hkeep. exact Hnode.
Qed.

Lemma setupCores_files sem cfg w w' cs :
  setupCores sem cfg w = (w', Ok cs) ->
  forall l, l ∈ levels ->
  exists content,
    os.nodes (sys w') !! filepath.Clean (log_path cfg l) = Some (os.Regular content).
Proof.
  rewrite setupCores_range. destruct sem; apply range_levels_files.
Qed.

(** The cores that take an entry are cores of the tee, with its encoder. *)
Lemma Check_cores_of_enc cfg e h lvl cells ls :
  Forall (fun c => zapcore.enc c = e)
         (zapcore.Check h (cores_of cfg e cells ls) lvl).
Proof.
  apply Forall_forall. intros c [_ Hc]%list_elem_of_filter.
  pose proof (cores_of_enc cfg e cells ls) as H.
  rewrite Forall_forall in H. apply H, Hc.
Qed.

(** ** Routing by exact level *)




(** Under the older rule of one variable for the whole loop, every closure
    reads the last level: all the cores take entries of [FatalLevel] and
    nothing else.  The routing by exact level above rests on the rule of
    Go 1.22. *)
Lemma shared_loop_variable_takes_fatal_only (cfg : ZapConfig) (w w' : World) :
  initLogger PerLoop cfg w = (w', None) ->
  forall c, c ∈ installed_cores w' ->
  forall lvl, zapcore.Enabled (heap w') (zapcore.enab c) lvl = true
              <-> lvl = zapcore.FatalLevel.
Proof.
  intros (w1 & w2 & cs & Hp & Hs & ->)%initLogger_None.
  apply setupCores_Ok in Hs as (-> & Hheap & _).
  unfold installed_cores. cbn [sugaredLogger zap.base zap.core heap].
  intros c Hc lvl. rewrite Hheap.
  assert (zapcore.enab c = zapcore.EqualsCell (length (heap w1))) as ->.
  { unfold cores_of, cells_of, levels in Hc. cbn in Hc.
    repeat (apply elem_of_cons in Hc as [->|Hc]; [reflexivity|]).
    apply elem_of_nil in Hc. done. }
  unfold heap_after. cbn [zapcore.Enabled].
  rewrite shared_cell_holds by (rewrite length_app; cbn; lia).
  cbn. apply Z.eqb_eq.
Qed.

(** ** The levels of the build *)

(** C2, as the code has it.  The build visits seven levels, zap's
    [DebugLevel], [InfoLevel], [WarnLevel], [ErrorLevel], [DPanicLevel],
    [PanicLevel] and [FatalLevel], in that order; a successful build opens
    one file per level, in that order, and yields seven cores, the i-th one
    on the file of the i-th level. *)
Theorem C2_seven_levels (sem : LoopVar) (cfg : ZapConfig) (w w' : World)
  (cs : list zapcore.Core) :
  setupCores sem cfg w = (w', Ok cs) ->
  levels = [zapcore.DebugLevel; zapcore.InfoLevel; zapcore.WarnLevel;
            zapcore.ErrorLevel; zapcore.DPanicLevel; zapcore.PanicLevel;
            zapcore.FatalLevel] /\
  length cs = 7%nat /\
  map zapcore.out cs = map (sink_of cfg) levels /\
  os.calls (sys w') = os.calls (sys w) ++ map (open_call cfg) levels.
Proof.
  intros (-> & _ & Hcalls)%setupCores_Ok.
  split; [reflexivity|]. split; [|split].
  - rewrite cores_of_length by apply cells_of_length. reflexivity.
  - apply cores_of_out, cells_of_length.
  - exact Hcalls.
Qed.

Lemma C2_seven_levels_witness :
  length (installed_cores demo_ready) = 7%nat.
Proof.
  apply (C2_seven_levels PerIteration demo_cfg demo_prepared
           (fst (setupCores PerIteration demo_cfg demo_prepared))
           (installed_cores demo_ready)).
  vm_compute. reflexivity.
Defined.

(** C2 with six levels fails: the build of the demonstration
    configuration succeeds with seven cores, not six. *)
Lemma C2_six_levels_counterexample :
  snd (initLogger PerIteration demo_cfg fresh) = None /\
  map zapcore.out (installed_cores demo_ready)
  = [os.Opened "logs/debug.log" log_flags; os.Opened "logs/info.log" log_flags;
     os.Opened "logs/warn.log" log_flags; os.Opened "logs/error.log" log_flags;
     os.Opened "logs/dpanic.log" log_flags; os.Opened "logs/panic.log" log_flags;
     os.Opened "logs/fatal.log" log_flags] /\
  length (installed_cores demo_ready) <> 6%nat.
Proof. repeat split; [vm_compute; reflexivity .. | vm_compute; discriminate]. Qed.

(** ** Failure of the build *)




(** Whatever makes [initLogger] fail, the package variable keeps the logger
    it had. *)
Lemma initLogger_error_keeps_logger sem cfg w w' err :
  initLogger sem cfg w = (w', Some err) ->
  sugaredLogger w' = sugaredLogger w.
Proof.
  intros [Hp|(w1 & Hp & Hs)]%initLogger_Some.
  - apply prepare_frame in Hp as (_ & H & _). done.
  - apply prepare_frame in Hp as (_ & H1 & _).
    apply setupCores_frame in Hs as (H2 & _). congruence.
Qed.



(** ** The encoding policy *)

(** zapcore's capital names are the lower-case names in upper case. *)
Lemma CapitalString_upper :
  Forall (fun l => zapcore.Level_CapitalString l = ToUpper (zapcore.Level_String l))
         levels.
Proof. repeat constructor. Qed.

(** Every entry an encoder of the package puts out carries the level, as the
    configured level encoder renders it. *)
Lemma entry_fields_level cfg ent :
  ("level", zapcore.encodeLevel (LevelEncoder cfg) (zapcore.Level_ ent))
  ∈ zapcore.entry_fields (encoder_of cfg) ent.
Proof.
  unfold zapcore.entry_fields, encoder_of.
  cbn [zapcore.config zapcore.kind EncoderConfig zapcore.LevelKey
       zapcore.TimeKey zapcore.EncodeLevel zapcore.nonempty zapcore.when
       String.eqb Ascii.eqb negb].
  destruct (String.eqb (Format cfg) "json"); cbn; set_solver.
Qed.

(** C4.  With the custom level encoder flag set, the level of every entry is
    rendered as the capital level name in square brackets, whatever the named
    style says; the capital name of a level of the build is its lower-case
    name in upper case. *)
Theorem C4_custom_flag_brackets (c : ZapConfig) (l : zapcore.Level) :
  CustomLevelEncoder c = true ->
  zapcore.encodeLevel (LevelEncoder c) l
  = "[" +:+ zapcore.Level_CapitalString l +:+ "]" /\
  zapcore.encodeLevel (zapcore.EncodeLevel (EncoderConfig c)) l
  = "[" +:+ zapcore.Level_CapitalString l +:+ "]" /\
  (forall ent, zapcore.Level_ ent = l ->
     ("level", "[" +:+ zapcore.Level_CapitalString l +:+ "]")
     ∈ zapcore.entry_fields (encoder_of c) ent) /\
  (l ∈ levels ->
   zapcore.Level_CapitalString l = ToUpper (zapcore.Level_String l)).
Proof.
  intros Hflag.
  assert (zapcore.encodeLevel (LevelEncoder c) l
          = "[" +:+ zapcore.Level_CapitalString l +:+ "]") as Hl.
  { unfold LevelEncoder. rewrite Hflag. reflexivity. }
  split; [exact Hl|]. split; [exact Hl|]. split.
  - intros ent <-. rewrite <- Hl. apply entry_fields_level.
  - intros Hin. pose proof CapitalString_upper as H.
    rewrite Forall_forall in H. apply H, Hin.
Qed.

Lemma C4_custom_flag_brackets_witness :
  EncodeLevel demo_cfg = "lowercase" /\
  zapcore.encodeLevel (LevelEncoder demo_cfg) zapcore.WarnLevel = "[WARN]".
Proof.
  split; [reflexivity|].
  apply (C4_custom_flag_brackets demo_cfg zapcore.WarnLevel). reflexivity.
Defined.

(** C6.  The policy has a default for whatever it does not recognise.  With
    the flag off and a style that is none of the four names, [LevelEncoder]
    returns the capital encoder, which renders the capital name of every
    level.  With a format other than [json], a build by [setupCores] that
    ends well has made its seven cores, each with the console encoder over
    the encoder configuration of the configuration. *)
Theorem C6_unrecognised_values_default (c : ZapConfig) :
  (CustomLevelEncoder c = false ->
   EncodeLevel c ∉ ["lowercase"; "capital"; "lowercaseColor"; "capitalColor"] ->
   LevelEncoder c = zapcore.CapitalLevelEncoder /\
   forall l, zapcore.encodeLevel (LevelEncoder c) l = zapcore.Level_CapitalString l) /\
  (Format c <> "json" ->
   forall sem w w' cs,
     setupCores sem c w = (w', Ok cs) ->
     length cs = 7%nat /\
     Forall (fun core =>
               zapcore.enc core
               = zapcore.mkEncoder zapcore.ConsoleEncoder (EncoderConfig c))
            cs).
Proof.
  split.
  - intros Hflag Hstyle.
    assert (LevelEncoder c = zapcore.CapitalLevelEncoder) as Hl.
    { unfold LevelEncoder. rewrite Hflag.
      rewrite !not_elem_of_cons in Hstyle.
      destruct Hstyle as (H1 & H2 & H3 & H4 & _).
      apply String.eqb_neq in H1, H2, H3, H4.
      rewrite H1, H2, H3, H4. reflexivity. }
    split; [exact Hl|]. intros l. rewrite Hl. reflexivity.
  - intros Hfmt sem w w' cs (-> & _)%setupCores_Ok.
    split.
    + rewrite cores_of_length by apply cells_of_length. reflexivity.
    + eapply Forall_impl; [apply cores_of_enc|].
      intros core ->. unfold encoder_of.
      apply String.eqb_neq in Hfmt. rewrite Hfmt. reflexivity.
Qed.

Lemma C6_unrecognised_values_default_witness :
  LevelEncoder odd_cfg = zapcore.CapitalLevelEncoder /\
  length odd_cores = 7%nat /\
  Forall (fun core =>
            zapcore.enc core
            = zapcore.mkEncoder zapcore.ConsoleEncoder (EncoderConfig odd_cfg))
         odd_cores.
Proof.
  destruct (C6_unrecognised_values_default odd_cfg) as [H1 H2]. split.
  - apply H1; [reflexivity|].
    apply (bool_decide_unpack
             (EncodeLevel odd_cfg
              ∉ ["lowercase"; "capital"; "lowercaseColor"; "capitalColor"])).
    vm_compute. exact I.
  - apply (H2 ltac:(discriminate) PerIteration demo_prepared
              (fst (setupCores PerIteration odd_cfg demo_prepared)) odd_cores).
    vm_compute. reflexivity.
Defined.

(** ** The calls of an initialisation *)

(** What [initLogger] asks of the file system: one stat of the directory,
    one [os.Mkdir] of it when the stat did not find it, and the open calls
    of the levels in order, up to the first that fails. *)
Lemma initLogger_calls sem cfg w w' r :
  initLogger sem cfg w = (w', r) ->
  exists visited,
    visited `prefix_of` levels /\
    (r = None -> visited = levels) /\
    os.calls (sys w') =
      os.calls (sys w)
      ++ stat_call cfg
         :: (if stat_finds (sys w) (Director cfg) then [] else [mkdir_call cfg])
      ++ map (open_call cfg) visited /\
    os.stdout (sys w') =
      os.stdout (sys w)
      ++ (if stat_finds (sys w) (Director cfg) then [] else [create_notice cfg]).
Proof.
  intros (w1 & r1 & Hp & H)%initLogger_cases.
  rewrite prepare_spec in Hp. cbn zeta in Hp.
  destruct r1 as [e|].
  - destruct H as [-> ->]. exists []. split; [apply prefix_nil|].
    split; [done|].
    destruct (stat_finds _ _); [done|]. destruct (mkdir_can _ _ _); [done|].
    injection Hp as <- _. cbn. done.
  - assert (os.calls (sys w1) =
              os.calls (sys w)
              ++ stat_call cfg
                 :: (if stat_finds (sys w) (Director cfg) then []
                     else [mkdir_call cfg]) /\
            os.stdout (sys w1) =
              os.stdout (sys w)
              ++ (if stat_finds (sys w) (Director cfg) then []
                  else [create_notice cfg])) as [Hc Hso].
    { destruct (stat_finds _ _); [|destruct (mkdir_can _ _ _); [|done]];
        injection Hp as <-; cbn; rewrite ?app_nil_r; done. }
    unfold install in H.
    destruct (setupCores sem cfg w1) as [w2 [cs|err]] eqn:Hs;
      injection H as <- <-.
    + pose proof Hs as (_ & _ & Hso2 & _)%setupCores_frame.
      apply setupCores_Ok in Hs as (_ & _ & Hc2).
      exists levels. cbn [sys]. rewrite Hc2, Hc, Hso2, Hso, <- app_assoc.
      done.
    + pose proof Hs as (_ & _ & Hso2 & _)%setupCores_frame.
      apply setupCores_Err in Hs as (visited & l & rest & errno & Hl & _ & Hc2).
      exists (visited ++ [l]). rewrite Hc2, Hc, Hso2, Hso, <- app_assoc.
      split; [|done]. exists rest. rewrite Hl, <- app_assoc. done.
Qed.

(** An initialisation keeps every node of the file system as it is. *)
Lemma initLogger_keeps_nodes sem cfg w w' r :
  initLogger sem cfg w = (w', r) ->
  forall k n, os.nodes (sys w) !! k = Some n -> os.nodes (sys w') !! k = Some n.
Proof.
  intros (w1 & r1 & Hp & H)%initLogger_cases k n Hk.
  apply prepare_frame in Hp as (_ & _ & _ & Hkeep).
  destruct r1 as [e|]; [destruct H as [-> _]; eauto|].
  unfold install in H.
  destruct (setupCores sem cfg w1) as [w2 [cs|err]] eqn:Hs;
    injection H as <- <-;
    apply setupCores_frame in Hs as (_ & _ & _ & Hkeep2 & _); cbn; eauto.
Qed.

(** ** Clean paths *)

Lemma append_nil_r s : s +:+ "" = s.
Proof.
  induction s as [|c s IH]; [done|].
  change (String c s +:+ "") with (String c (s +:+ "")). by rewrite IH.
Qed.

Lemma append_assoc s1 s2 s3 : (s1 +:+ s2) +:+ s3 = s1 +:+ s2 +:+ s3.
Proof.
  induction s1 as [|c s1 IH]; [done|].
  change ((String c s1 +:+ s2) +:+ s3) with (String c ((s1 +:+ s2) +:+ s3)).
  by rewrite IH.
Qed.

Lemma split_to_slash s : forall cur rest,
  has_slash s = false ->
  filepath.split cur (s +:+ "/" +:+ rest) = (cur +:+ s) :: filepath.split "" rest.
Proof.
  induction s as [|c s IH]; intros cur rest Hs.
  - rewrite append_nil_r. reflexivity.
  - cbn in Hs. apply orb_false_iff in Hs as [Hc Hs].
    change (String c s +:+ "/" +:+ rest) with (String c (s +:+ "/" +:+ rest)).
    cbn [filepath.split]. rewrite Hc, IH by done.
    rewrite append_assoc. done.
Qed.

Lemma split_no_slash s : forall cur,
  has_slash s = false -> filepath.split cur s = [cur +:+ s].
Proof.
  induction s as [|c s IH]; intros cur Hs.
  - rewrite append_nil_r. reflexivity.
  - cbn in Hs. apply orb_false_iff in Hs as [Hc Hs].
    cbn [filepath.split]. rewrite Hc, IH by done.
    rewrite append_assoc. done.
Qed.

Lemma plain_no_slash s : plain s = true -> has_slash s = false.
Proof.
  unfold plain. rewrite !andb_true_iff, negb_true_iff. tauto.
Qed.

Lemma split_concat e : forall elems,
  Forall (fun s => plain s = true) (e :: elems) ->
  filepath.split "" (String.concat "/" (e :: elems)) = e :: elems.
Proof.
  intros elems. revert e. induction elems as [|e' elems IH]; intros e He.
  - apply Forall_cons in He as [He _]. cbn. apply split_no_slash, plain_no_slash, He.
  - apply Forall_cons in He as [He Hrest].
    change (String.concat "/" (e :: e' :: elems))
      with (e +:+ "/" +:+ String.concat "/" (e' :: elems)).
    rewrite split_to_slash by apply plain_no_slash, He.
    rewrite IH by done. done.
Qed.

Lemma clean_step_plain r stack e :
  plain e = true -> filepath.clean_step r stack e = e :: stack.
Proof.
  unfold plain, filepath.clean_step.
  rewrite !andb_true_iff, !negb_true_iff. intros [[[_ ->] ->] ->]. done.
Qed.

Lemma clean_fold_plain r : forall elems stack,
  Forall (fun s => plain s = true) elems ->
  fold_left (filepath.clean_step r) elems stack = rev elems ++ stack.
Proof.
  induction elems as [|e elems IH]; intros stack He; [done|].
  apply Forall_cons in He as [He Hrest]. cbn [fold_left].
  rewrite clean_step_plain, IH by done. cbn. by rewrite <- app_assoc.
Qed.

Lemma rooted_plain_head e elems :
  plain e = true -> filepath.rooted (String.concat "/" (e :: elems)) = false.
Proof.
  intros He. assert (filepath.rooted e = false) as Hr.
  { unfold plain in He. destruct e as [|c e]; [done|].
    cbn in He. cbn. destruct (Ascii.eqb c "/"); [done|done]. }
  destruct e as [|c e]; [done|].
  destruct elems; exact Hr.
Qed.

Lemma Clean_clean_path root elems :
  Forall (fun s => plain s = true) elems -> elems <> [] ->
  filepath.Clean (clean_path root elems) = clean_path root elems.
Proof.
  intros He Hne. destruct elems as [|e elems]; [done|].
  pose proof He as [He1 _]%Forall_cons.
  unfold filepath.Clean, clean_path. destruct root.
  - change ("/" +:+ String.concat "/" (e :: elems))
      with (String "/" (String.concat "/" (e :: elems))).
    cbn [filepath.rooted filepath.split]. cbn [Ascii.eqb Bool.eqb].
    rewrite split_concat by done.
    change (fold_left (filepath.clean_step true) ("" :: e :: elems) [])
      with (fold_left (filepath.clean_step true) (e :: elems) []).
    rewrite clean_fold_plain by done.
    rewrite app_nil_r, rev_involutive. reflexivity.
  - change ("" +:+ String.concat "/" (e :: elems))
      with (String.concat "/" (e :: elems)).
    rewrite rooted_plain_head by done.
    rewrite split_concat, clean_fold_plain by done.
    rewrite app_nil_r, rev_involutive. reflexivity.
Qed.

Lemma concat_snoc e f : forall elems,
  String.concat "/" ((e :: elems) ++ [f])
  = String.concat "/" (e :: elems) +:+ "/" +:+ f.
Proof.
  intros elems. revert e. induction elems as [|e' elems IH]; intros e.
  - reflexivity.
  - change (String.concat "/" ((e :: e' :: elems) ++ [f]))
      with (e +:+ "/" +:+ String.concat "/" ((e' :: elems) ++ [f])).
    rewrite IH.
    change (String.concat "/" (e :: e' :: elems))
      with (e +:+ "/" +:+ String.concat "/" (e' :: elems)).
    rewrite !append_assoc. reflexivity.
Qed.

Lemma clean_path_nonempty root e elems :
  plain e = true -> String.eqb (clean_path root (e :: elems)) "" = false.
Proof.
  intros He. unfold clean_path. destruct root; [reflexivity|].
  change ("" +:+ String.concat "/" (e :: elems))
    with (String.concat "/" (e :: elems)).
  destruct e as [|c e]; [done|]. destruct elems; reflexivity.
Qed.

(** Joining a clean directory and a plain file name puts one separator
    between them. *)
Lemma Join_clean_path root elems f :
  Forall (fun s => plain s = true) elems -> elems <> [] -> plain f = true ->
  filepath.Join [clean_path root elems; f]
  = clean_path root elems +:+ "/" +:+ f.
Proof.
  intros He Hne Hf. destruct elems as [|e elems]; [done|].
  pose proof He as [He1 _]%Forall_cons.
  cbn [filepath.Join]. rewrite clean_path_nonempty by done.
  change (String.concat "/" [clean_path root (e :: elems); f])
    with (clean_path root (e :: elems) +:+ "/" +:+ f).
  assert (clean_path root (e :: elems) +:+ "/" +:+ f
          = clean_path root ((e :: elems) ++ [f])) as ->.
  { unfold clean_path. rewrite concat_snoc, append_assoc. reflexivity. }
  apply Clean_clean_path.
  - apply Forall_app. split; [done|]. constructor; done.
  - done.
Qed.

Lemma log_name_plain l :
  l ∈ levels -> plain (zapcore.Level_String l +:+ ".log") = true.
Proof.
  unfold levels. rewrite !elem_of_cons, elem_of_nil.
  intros [->|[->|[->|[->|[->|[->|[->|[]]]]]]]]; reflexivity.
Qed.

(** ** The sinks *)

(** C7.  The open calls of an initialisation are those of the levels, in
    order: each opens the path joined from the directory and the lower-case
    level name with the suffix [.log], with the flags
    [O_APPEND|O_CREATE|O_WRONLY] and the mode 0644.  For a clean directory
    path the joined path is the directory, one separator, and the file name.
    The flags are write only, create and append, and do not truncate; every
    regular file that was there keeps its content. *)
Theorem C7_sinks_append_only (sem : LoopVar) (cfg : ZapConfig) (w w' : World)
  (r : option error) :
  initLogger sem cfg w = (w', r) ->
  (exists before visited,
      os.calls (sys w') = os.calls (sys w) ++ before ++ map (open_call cfg) visited /\
      Forall (fun c => is_open c = false) before /\
      visited `prefix_of` levels /\ (r = None -> visited = levels)) /\
  (forall l,
      open_call cfg l =
      os.SysOpenFile
        (filepath.Join [Director cfg; zapcore.Level_String l +:+ ".log"])
        (Z.lor (Z.lor os.O_APPEND os.O_CREATE) os.O_WRONLY) 420) /\
  (forall l root elems,
      l ∈ levels ->
      Director cfg = clean_path root elems ->
      Forall (fun e => plain e = true) elems -> elems <> [] ->
      log_path cfg l = Director cfg +:+ "/" +:+ zapcore.Level_String l +:+ ".log") /\
  (os.has_flag log_flags os.O_APPEND = true /\
   os.has_flag log_flags os.O_CREATE = true /\
   Z.land log_flags 3 = os.O_WRONLY /\
   os.has_flag log_flags os.O_TRUNC = false) /\
  (forall k content,
      os.nodes (sys w) !! k = Some (os.Regular content) ->
      os.nodes (sys w') !! k = Some (os.Regular content)).
Proof.
  intros H. split; [|split; [|split; [|split]]].
  - destruct (initLogger_calls _ _ _ _ _ H) as (visited & Hpre & Hall & Hc & _).
    exists (stat_call cfg
              :: (if stat_finds (sys w) (Director cfg) then []
                  else [mkdir_call cfg])), visited.
    split; [exact Hc|]. split; [|done].
    destruct (stat_finds _ _); repeat constructor.
  - reflexivity.
  - intros l root elems Hl Hd He Hne. unfold log_path. rewrite Hd.
    apply Join_clean_path; [done..|]. apply log_name_plain, Hl.
  - repeat split; reflexivity.
  - intros k content. eapply initLogger_keeps_nodes, H.
Qed.

Lemma C7_sinks_append_only_witness :
  os.nodes (sys logged) !! "logs/info.log" = Some (os.Regular [demo_line]) /\
  os.nodes (sys (fst (initLogger PerIteration demo_cfg logged))) !! "logs/info.log"
  = Some (os.Regular [demo_line]).
Proof.
  assert (os.nodes (sys logged) !! "logs/info.log"
          = Some (os.Regular [demo_line])) as Hbefore.
  { vm_compute. reflexivity. }
  split; [exact Hbefore|].
  apply (C7_sinks_append_only PerIteration demo_cfg logged
           (fst (initLogger PerIteration demo_cfg logged))
           (snd (initLogger PerIteration demo_cfg logged))).
  - apply surjective_pairing.
  - exact Hbefore.
Defined.

(** ** The directory *)

Lemma stat_finds_resolve s path :
  stat_finds s path = true -> is_Some (os.resolve s path).
Proof.
  unfold stat_finds. destruct (os.fault s _); [done|].
  apply bool_decide_eq_true.
Qed.

Lemma mkdir_can_present s name perm n :
  os.resolve s name = Some n -> mkdir_can s name perm = false.
Proof.
  unfold mkdir_can. intros ->. destruct (os.fault s _); reflexivity.
Qed.

(** The directories after the build are those before it. *)
Lemma install_directories sem cfg w w' r :
  install sem cfg w = (w', r) ->
  forall k, is_directory (sys w') k <-> is_directory (sys w) k.
Proof.
  unfold install.
  destruct (setupCores sem cfg w) as [w2 [cs|err]] eqn:Hs;
    intros [= <- <-] k;
    apply setupCores_frame in Hs as (_ & _ & _ & Hkeep & Hdir);
    cbn [sys]; split; (apply Hdir || apply Hkeep).
Qed.

(** C5.  The directory handling of an initialisation.  When nothing is at
    the configured path, the calls start with one stat and one [os.Mkdir] of
    that very path; if the directory can be made, the directories afterwards
    are those before and the configured one, no other; if it cannot, for
    instance because its parent is missing, the initialisation fails with the
    error of the creation, no node is added and no file is opened.  When the
    configured path is a directory already, the directories afterwards are
    those before; and whenever the stat finds the path, no [os.Mkdir] is
    issued at all. *)
Theorem C5_directory_handling (sem : LoopVar) (cfg : ZapConfig) (w w' : World)
  (r : option error) :
  initLogger sem cfg w = (w', r) ->
  (os.resolve (sys w) (Director cfg) = None ->
   (exists opens,
       os.calls (sys w') =
         os.calls (sys w) ++ [stat_call cfg; mkdir_call cfg] ++ opens /\
       Forall (fun c => is_open c = true) opens) /\
   (mkdir_can (sys w) (Director cfg) os.ModePerm = true ->
    forall k, is_directory (sys w') k <->
              is_directory (sys w) k \/ k = filepath.Clean (Director cfg)) /\
   (mkdir_can (sys w) (Director cfg) os.ModePerm = false ->
    (exists errno, r = Some (mkdir_error cfg errno)) /\
    os.nodes (sys w') = os.nodes (sys w) /\
    sugaredLogger w' = sugaredLogger w /\
    os.calls (sys w') = os.calls (sys w) ++ [stat_call cfg; mkdir_call cfg]) /\
   (os.parent (sys w) (Director cfg) = None ->
    mkdir_can (sys w) (Director cfg) os.ModePerm = false)) /\
  (os.resolve (sys w) (Director cfg) = Some os.Directory ->
   forall k, is_directory (sys w') k <-> is_directory (sys w) k) /\
  (stat_finds (sys w) (Director cfg) = true ->
   exists opens,
     os.calls (sys w') = os.calls (sys w) ++ [stat_call cfg] ++ opens /\
     Forall (fun c => is_open c = true) opens).
Proof.
  intros H.
  pose proof (initLogger_calls _ _ _ _ _ H) as (visited & _ & _ & Hcalls & _).
  assert (Forall (fun c => is_open c = true) (map (open_call cfg) visited))
    as Hopens.
  { apply Forall_forall. intros c (l & -> & _)%list_elem_of_fmap. reflexivity. }
  apply initLogger_cases in H as (w1 & r1 & Hp & H).
  rewrite prepare_spec in Hp. cbn zeta in Hp.
  split; [|split].
  - intros Habsent.
    assert (stat_finds (sys w) (Director cfg) = false) as Hstat.
    { destruct (stat_finds _ _) eqn:Hs; [|done].
      apply stat_finds_resolve in Hs as [n Hn]. congruence. }
    rewrite Hstat in Hp, Hcalls.
    split; [eauto|]. split; [|split].
    + intros Hcan. rewrite Hcan in Hp. injection Hp as <- <-.
      intros k. rewrite (install_directories _ _ _ _ _ H k).
      unfold is_directory. cbn [sys with_sys os.nodes].
      rewrite lookup_insert. case_decide as Hk.
      * split; [eauto|done].
      * split; [eauto|]. intros [?|?]; [done|congruence].
    + intros Hcan. rewrite Hcan in Hp. injection Hp as <- <-.
      destruct H as [-> ->]. cbn. eauto.
    + intros Hparent. unfold mkdir_can. rewrite Hparent.
      destruct (os.fault _ _), (os.resolve (sys w) (Director cfg)); reflexivity.
  - intros Hdir k.
    destruct (stat_finds _ _).
    + injection Hp as <- <-. rewrite (install_directories _ _ _ _ _ H k). done.
    + rewrite (mkdir_can_present _ _ _ _ Hdir) in Hp.
      injection Hp as <- <-. destruct H as [-> _]. done.
  - intros Hstat. rewrite Hstat in Hcalls. eauto.
Qed.

Lemma C5_directory_handling_witness :
  is_directory (sys demo_ready) "logs" /\
  (exists errno,
      snd (initLogger PerIteration deep_cfg fresh)
      = Some (mkdir_error deep_cfg errno)) /\
  (is_directory (sys (fst (initLogger PerIteration demo_cfg demo_ready))) "logs"
   <-> is_directory (sys demo_ready) "logs").
Proof.
  split; [|split].
  - destruct (C5_directory_handling PerIteration demo_cfg fresh demo_ready
                (snd (initLogger PerIteration demo_cfg fresh)))
      as [Habsent _]; [apply surjective_pairing|].
    destruct Habsent as (_ & Hmade & _); [vm_compute; reflexivity|].
    apply Hmade; [vm_compute; reflexivity|]. right. vm_compute. reflexivity.
  - destruct (C5_directory_handling PerIteration deep_cfg fresh
                (fst (initLogger PerIteration deep_cfg fresh))
                (snd (initLogger PerIteration deep_cfg fresh)))
      as [Habsent _]; [apply surjective_pairing|].
    destruct Habsent as (_ & _ & Hfails & Hparent); [vm_compute; reflexivity|].
    apply Hfails, Hparent. vm_compute. reflexivity.
  - destruct (C5_directory_handling PerIteration demo_cfg demo_ready
                (fst (initLogger PerIteration demo_cfg demo_ready))
                (snd (initLogger PerIteration demo_cfg demo_ready)))
      as (_ & Hpresent & _); [apply surjective_pairing|].
    apply Hpresent. vm_compute. reflexivity.
Defined.

(** C10.  When the stat of the directory fails with an error other than
    not-exist, [pathExists] reports the path as absent together with that
    error, and [initLogger] drops the error: it prints its notice and goes on
    to [os.Mkdir] the directory.  If the initialisation then fails, the error
    is that of the creation or of a log file, never the one of the stat. *)
Theorem C10_stat_error_discarded (sem : LoopVar) (cfg : ZapConfig) (w : World)
  (e : Errno) :
  os.fault (sys w) (stat_call cfg) = Some e ->
  e <> ENOENT ->
  snd (pathExists (Director cfg) (sys w))
  = (false, Some (PathError "stat" (Director cfg) e)) /\
  forall w' r,
    initLogger sem cfg w = (w', r) ->
    (exists rest,
        os.calls (sys w') =
          os.calls (sys w) ++ stat_call cfg :: mkdir_call cfg :: rest) /\
    os.stdout (sys w') = os.stdout (sys w) ++ [create_notice cfg] /\
    r <> Some (PathError "stat" (Director cfg) e) /\
    (forall err, r = Some err ->
       (exists errno, err = mkdir_error cfg errno) \/
       (exists l errno, err = log_file_error cfg l errno)).
Proof.
  intros Hfault Hne.
  assert (stat_finds (sys w) (Director cfg) = false) as Hstat.
  { unfold stat_finds. unfold stat_call in Hfault. rewrite Hfault. done. }
  split.
  { rewrite pathExists_stat, Hstat. unfold stat_call in Hfault.
    rewrite Hfault. destruct e; done. }
  intros w' r H.
  pose proof (initLogger_calls _ _ _ _ _ H) as (visited & _ & _ & Hc & Hso).
  rewrite Hstat in Hc, Hso.
  split; [eauto|]. split; [exact Hso|].
  assert (forall err, r = Some err ->
            (exists errno, err = mkdir_error cfg errno) \/
            (exists l errno, err = log_file_error cfg l errno)) as Hshape.
  { intros err ->. apply initLogger_Some in H as [Hp|(w1 & _ & Hs)].
    - left. rewrite prepare_spec in Hp. cbn zeta in Hp. rewrite Hstat in Hp.
      destruct (mkdir_can _ _ _); [done|]. injection Hp as _ <-. eauto.
    - right. apply setupCores_Err in Hs as (_ & l & _ & errno & _ & -> & _).
      eauto. }
  split; [|exact Hshape].
  intros ->. destruct (Hshape _ eq_refl) as [[? [=]]|(? & ? & [=])].
Qed.

Lemma C10_stat_error_discarded_witness :
  exists rest,
    os.calls (sys (fst (initLogger PerIteration demo_cfg unreadable)))
    = os.calls (sys unreadable)
      ++ stat_call demo_cfg :: mkdir_call demo_cfg :: rest.
Proof.
  destruct (C10_stat_error_discarded PerIteration demo_cfg unreadable EACCES)
    as [_ H]; [vm_compute; reflexivity | discriminate |].
  apply (H (fst (initLogger PerIteration demo_cfg unreadable))
           (snd (initLogger PerIteration demo_cfg unreadable))).
  apply surjective_pairing.
Defined.

(** ** The fields of the configuration that are read *)

Section SameReadFields.

Variables (c1 c2 : ZapConfig).
Hypothesis Hsame : same_read_fields c1 c2.

Lemma encoder_of_same : encoder_of c1 = encoder_of c2.
Proof.
  destruct Hsame as (Hf & _ & Hl & Hk & Hc).
  unfold encoder_of, EncoderConfig, LevelEncoder.
  rewrite Hf, Hl, Hk, Hc. reflexivity.
Qed.

Lemma getLogWriter_same filename s :
  getLogWriter c1 filename s = getLogWriter c2 filename s.
Proof.
  destruct Hsame as (_ & Hd & _). unfold getLogWriter. rewrite Hd. reflexivity.
Qed.

Lemma range_levels_same sem encoder shared todo : forall cores w,
  range_levels sem c1 encoder shared todo cores w
  = range_levels sem c2 encoder shared todo cores w.
Proof.
  induction todo as [|level rest IH]; intros cores w; [reflexivity|].
  cbn [range_levels]. rewrite getLogWriter_same.
  destruct (bind_level _ _ _ _) as [h1 cell].
  destruct (getLogWriter c2 _ _) as [s1 [writer|err]]; [apply IH | reflexivity].
Qed.

Lemma setupCores_same sem w : setupCores sem c1 w = setupCores sem c2 w.
Proof.
  rewrite !setupCores_range, encoder_of_same.
  destruct sem; apply range_levels_same.
Qed.

Lemma initLogger_same sem w : initLogger sem c1 w = initLogger sem c2 w.
Proof.
  rewrite !initLogger_halves.
  assert (prepare c1 w = prepare c2 w) as ->.
  { destruct Hsame as (_ & Hd & _).
    unfold prepare, create_notice. rewrite Hd. reflexivity. }
  destruct (prepare c2 w) as [w1 [err|]]; [reflexivity|].
  unfold install. rewrite setupCores_same. reflexivity.
Qed.

End SameReadFields.

(** The cores of an installed logger write to opened files. *)
Lemma installed_cores_files sem cfg w w' :
  initLogger sem cfg w = (w', None) ->
  Forall (fun c => is_file_sink (zapcore.out c) = true) (installed_cores w').
Proof.
  intros (w1 & w2 & cs & _ & Hs & ->)%initLogger_None.
  apply setupCores_Ok in Hs as (-> & _).
  unfold installed_cores, cores_of. cbn [sugaredLogger zap.base zap.core].
  apply Forall_forall. intros c Hc.
  apply list_elem_of_lookup in Hc as [i Hc].
  apply lookup_zip_with_Some in Hc as (cell & l & -> & _). reflexivity.
Qed.

(** Writing to opened files prints nothing on standard output. *)
Lemma Write_stdout ent : forall checked s,
  Forall (fun c => is_file_sink (zapcore.out c) = true) checked ->
  os.stdout (zapcore.Write checked ent s) = os.stdout s.
Proof.
  unfold zapcore.Write.
  induction checked as [|c checked IH]; intros s Hall; [reflexivity|].
  apply Forall_cons in Hall as [Hc Hall]. cbn [fold_left].
  rewrite IH by exact Hall.
  destruct (zapcore.out c) as [| |key flag]; try discriminate.
  unfold os.File_Write. destruct (os.nodes s !! key) as [[|content]|]; try done.
  destruct (os.has_flag flag os.O_APPEND); done.
Qed.

(** ** The caller annotation *)

Lemma entry_fields_caller cfg ent :
  zapcore.Defined (zapcore.Caller ent) = true ->
  ("caller", zapcore.EntryCaller_TrimmedPath (zapcore.Caller ent))
  ∈ zapcore.entry_fields (encoder_of cfg) ent.
Proof.
  intros Hdef. unfold zapcore.entry_fields, encoder_of.
  cbn [zapcore.config zapcore.kind EncoderConfig zapcore.CallerKey].
  rewrite Hdef.
  destruct (String.eqb (Format cfg) "json"); cbn [zapcore.when zapcore.nonempty
    String.eqb Ascii.eqb negb andb]; set_solver.
Qed.

(** C8, as the code has it.  The logger an initialisation installs always
    annotates callers: every line a log call writes carries the caller in
    its trimmed form, and the show-line flag of the configuration changes
    nothing about the initialisation. *)
Theorem C8_caller_always (sem : LoopVar) (cfg : ZapConfig) (w w' : World) :
  initLogger sem cfg w = (w', None) ->
  (exists sl, sugaredLogger w' = Some sl /\ zap.addCaller (zap.base sl) = true) /\
  (forall lvl msg site now fields,
      zapcore.Defined site = true ->
      fields ∈ emitted_fields w' lvl msg site now ->
      ("caller", zapcore.EntryCaller_TrimmedPath site) ∈ fields) /\
  (forall b, initLogger sem (with_ShowLine b cfg) w = initLogger sem cfg w).
Proof.
  intros H. split; [|split].
  - apply initLogger_None in H as (w1 & w2 & cs & _ & _ & ->).
    eexists. split; reflexivity.
  - intros lvl msg site now fields Hdef Hin.
    apply initLogger_None in H as (w1 & w2 & cs & _ & Hs & ->).
    apply setupCores_Ok in Hs as (-> & _).
    unfold emitted_fields in Hin. cbn [sugaredLogger zap.base zap.core] in Hin.
    apply list_elem_of_fmap in Hin as (c & -> & Hc).
    unfold zapcore.Check in Hc. apply list_elem_of_filter in Hc as [_ Hc].
    pose proof (cores_of_enc cfg (encoder_of cfg)
                  (cells_of sem (length (heap w1)) (heap w1) (length levels))
                  levels) as Henc.
    rewrite Forall_forall in Henc. rewrite (Henc c Hc).
    apply (entry_fields_caller cfg
             (zap.entry_of (zap.mkLogger _ true) lvl msg site now)).
    exact Hdef.
  - intros b. apply initLogger_same. repeat split.
Qed.

Lemma C8_caller_always_witness :
  exists sl, sugaredLogger demo_ready = Some sl
             /\ zap.addCaller (zap.base sl) = true.
Proof.
  apply (C8_caller_always PerIteration demo_cfg fresh demo_ready).
  vm_compute. reflexivity.
Defined.

(** C8 with the flag as a gate fails: with the show-line flag off, the
    line an [Info] call writes still carries the caller. *)
Lemma C8_show_line_counterexample :
  ShowLine demo_cfg = false /\
  emitted_fields demo_ready zapcore.InfoLevel "ready" demo_site demo_now
  = [[("time", "2024-03-05 07:08:09.012"); ("level", "[INFO]");
      ("caller", "logger/logger.go:171"); ("msg", "ready")]].
Proof. split; vm_compute; reflexivity. Qed.

(** ** The fields of the configuration that are not read *)

(** C9.  Two configurations that differ in the level threshold, the prefix,
    the console flag and the retention days only give the same
    initialisation: the same result, the same calls and files, the same
    logger.  In particular the cores of the logger all write to opened
    files, and a log call prints nothing on standard output, whatever the
    console flag says. *)
Theorem C9_unused_fields (sem : LoopVar) (c1 c2 : ZapConfig) (w : World) :
  same_but_unused c1 c2 ->
  initLogger sem c1 w = initLogger sem c2 w /\
  forall w',
    initLogger sem c1 w = (w', None) ->
    Forall (fun c => is_file_sink (zapcore.out c) = true) (installed_cores w') /\
    forall lvl msg site now,
      match emit lvl msg site now w' with
      | Returns w2 | Exits w2 _ | Panics w2 _ =>
          os.stdout (sys w2) = os.stdout (sys w')
      | NilDereference => False
      end.
Proof.
  intros (Hf & Hd & Hl & Hk & _ & Hc). split.
  { apply initLogger_same. repeat split; assumption. }
  intros w' H. pose proof (installed_cores_files _ _ _ _ H) as Hfiles.
  split; [exact Hfiles|].
  intros lvl msg site now. unfold emit, installed_cores in *.
  apply initLogger_None in H as (w1 & w2 & cs & _ & _ & ->).
  cbn [sugaredLogger zap.base zap.core heap sys] in *.
  unfold zap.log. cbn [zap.core].
  assert (os.stdout
            (zapcore.Write (zapcore.Check (heap w2) cs lvl)
               (zap.entry_of (zap.mkLogger cs true) lvl msg site now) (sys w2))
          = os.stdout (sys w2)) as Hout.
  { apply Write_stdout. unfold zapcore.Check.
    apply Forall_forall. intros c [_ Hc']%list_elem_of_filter.
    rewrite Forall_forall in Hfiles. apply Hfiles, Hc'. }
  destruct (zap.terminal lvl msg); exact Hout.
Qed.

Lemma C9_unused_fields_witness :
  LogInConsole demo_cfg = true /\ LogInConsole demo_cfg_other = false /\
  initLogger PerIteration demo_cfg fresh
  = initLogger PerIteration demo_cfg_other fresh.
Proof.
  split; [reflexivity|]. split; [reflexivity|].
  apply (C9_unused_fields PerIteration demo_cfg demo_cfg_other fresh).
  repeat split.
Defined.


(** * Further properties of the package *)

(** ** Cleaned paths and the files of the levels *)

Lemma Clean_render p :
  filepath.Clean p
  = render (filepath.rooted p)
      (rev (fold_left (filepath.clean_step (filepath.rooted p))
              (filepath.split "" p) [])).
Proof. reflexivity. Qed.

Lemma has_slash_app s t :
  has_slash (s +:+ t) = has_slash s || has_slash t.
Proof.
  induction s as [|c s IH]; [reflexivity|].
  change (String c s +:+ t) with (String c (s +:+ t)). cbn [has_slash].
  rewrite IH, orb_assoc. reflexivity.
Qed.

Lemma split_elements s : forall cur,
  has_slash cur = false ->
  Forall (fun e => has_slash e = false) (filepath.split cur s).
Proof.
  induction s as [|c s IH]; intros cur Hcur; cbn [filepath.split].
  - constructor; [done|constructor].
  - destruct (Ascii.eqb c "/") eqn:Hc.
    + constructor; [done|]. apply IH. reflexivity.
    + apply IH. rewrite has_slash_app, Hcur. cbn. rewrite Hc. reflexivity.
Qed.

Lemma plain_iff e :
  plain e = true <->
  has_slash e = false /\ e <> "" /\ e <> "." /\ e <> "..".
Proof.
  unfold plain. rewrite !andb_true_iff, !negb_true_iff, !String.eqb_neq. tauto.
Qed.

(** The scan keeps its stack in shape: plain elements on top of dot-dots,
    and no dot-dot below the root. *)
Lemma clean_step_shape r stack e :
  has_slash e = false ->
  shape r stack -> shape r (filepath.clean_step r stack e).
Proof.
  intros He (n & ps & -> & Hps & Hr). unfold filepath.clean_step.
  destruct (String.eqb_spec e "") as [->|Hne]; [exists n, ps; done|].
  destruct (String.eqb_spec e ".") as [->|Hnd]; [exists n, ps; done|].
  cbn [orb].
  destruct (String.eqb_spec e "..") as [->|Hndd].
  - destruct ps as [|p ps].
    + destruct n as [|n]; cbn [app replicate].
      * destruct r; [exists 0%nat, []; done|]. exists 1%nat, []. done.
      * cbn [String.eqb Ascii.eqb Bool.eqb andb].
        exists (S (S n)), []. split; [done|]. split; [done|].
        intros Hrt. specialize (Hr Hrt). done.
    + apply Forall_cons in Hps as [Hp Hps]. cbn [app].
      destruct (String.eqb_spec p "..") as [->|_]; [done|].
      exists n, ps. done.
  - exists n, (e :: ps). split; [done|]. split; [|done].
    constructor; [|done]. apply plain_iff. done.
Qed.

Lemma clean_fold_shape r : forall elems stack,
  Forall (fun e => has_slash e = false) elems ->
  shape r stack -> shape r (fold_left (filepath.clean_step r) elems stack).
Proof.
  induction elems as [|e elems IH]; intros stack He Hs; [done|].
  apply Forall_cons in He as [He Hrest]. cbn [fold_left].
  apply IH; [done|]. apply clean_step_shape; done.
Qed.

Lemma rev_replicate (n : nat) (x : string) : rev (replicate n x) = replicate n x.
Proof.
  induction n as [|n IH]; [reflexivity|].
  cbn [replicate rev]. rewrite IH. symmetry. apply replicate_cons_app.
Qed.

Lemma shape_cleaned r stack : shape r stack -> cleaned r (rev stack).
Proof.
  intros (n & ps & -> & Hps & Hr). exists n, (rev ps).
  rewrite rev_app_distr, rev_replicate. split; [done|]. split; [|done].
  apply Forall_rev, Hps.
Qed.

(** What [Clean] returns is the rendering of a cleaned list of elements. *)
Lemma Clean_cleaned p :
  exists kept,
    filepath.Clean p = render (filepath.rooted p) kept /\
    cleaned (filepath.rooted p) kept.
Proof.
  eexists. split; [apply Clean_render|].
  apply shape_cleaned, clean_fold_shape.
  - apply split_elements. reflexivity.
  - exists 0%nat, []. done.
Qed.

Lemma split_concat_elements e : forall elems,
  Forall (fun s => has_slash s = false) (e :: elems) ->
  filepath.split "" (String.concat "/" (e :: elems)) = e :: elems.
Proof.
  intros elems. revert e. induction elems as [|e' elems IH]; intros e He.
  - apply Forall_cons in He as [He _]. apply split_no_slash, He.
  - apply Forall_cons in He as [He Hrest].
    change (String.concat "/" (e :: e' :: elems))
      with (e +:+ "/" +:+ String.concat "/" (e' :: elems)).
    rewrite split_to_slash by exact He.
    rewrite IH by done. done.
Qed.

Lemma clean_fold_dotdots : forall n k,
  fold_left (filepath.clean_step false) (replicate n "..") (replicate k "..")
  = replicate (n + k) "..".
Proof.
  induction n as [|n IH]; intros k; [reflexivity|].
  cbn [replicate fold_left].
  assert (filepath.clean_step false (replicate k "..") ".."
          = replicate (S k) "..") as ->.
  { destruct k; reflexivity. }
  rewrite IH. f_equal. lia.
Qed.

Lemma rooted_concat e elems :
  has_slash e = false -> e <> "" ->
  filepath.rooted (String.concat "/" (e :: elems)) = false.
Proof.
  intros He Hne. destruct e as [|c e]; [done|].
  cbn in He. apply orb_false_iff in He as [Hc _].
  destruct elems; cbn; exact Hc.
Qed.

(** Cleaning the rendering of a cleaned list gives it back. *)
Lemma Clean_render_cleaned r kept :
  cleaned r kept -> filepath.Clean (render r kept) = render r kept.
Proof.
  intros (n & ps & -> & Hps & Hr).
  destruct r.
  - rewrite (Hr eq_refl). cbn [replicate app]. destruct ps as [|p ps].
    + reflexivity.
    + apply (Clean_clean_path true (p :: ps)); done.
  - clear Hr. destruct (replicate n ".." ++ ps) as [|e elems] eqn:Hkept.
    { reflexivity. }
    assert (Forall (fun s => has_slash s = false) (e :: elems)
            /\ e <> "") as [Hns Hne].
    { rewrite <- Hkept. split.
      - apply Forall_app. split.
        + apply Forall_replicate. reflexivity.
        + eapply Forall_impl; [exact Hps|]. intros s Hs. apply plain_iff in Hs. tauto.
      - destruct n; cbn in Hkept.
        + subst ps. apply Forall_cons in Hps as [Hp _]. apply plain_iff in Hp. tauto.
        + injection Hkept as <- _. done. }
    unfold render at 1. rewrite Clean_render.
    pose proof Hns as [He _]%Forall_cons.
    rewrite rooted_concat, split_concat_elements by done.
    rewrite <- Hkept, fold_left_app.
    rewrite (clean_fold_dotdots n 0
             : fold_left _ (replicate n "..") [] = _), clean_fold_plain by done.
    rewrite rev_app_distr, rev_involutive, rev_replicate, Nat.add_0_r.
    rewrite Hkept. reflexivity.
Qed.

(** [Clean] is idempotent. *)
Lemma Clean_idempotent p : filepath.Clean (filepath.Clean p) = filepath.Clean p.
Proof.
  destruct (Clean_cleaned p) as (kept & -> & Hk).
  apply Clean_render_cleaned, Hk.
Qed.

Lemma split_snoc f : has_slash f = false -> forall d cur,
  filepath.split cur (d +:+ "/" +:+ f) = filepath.split cur d ++ [f].
Proof.
  intros Hf. induction d as [|c d IH]; intros cur.
  - change ("" +:+ "/" +:+ f) with (String "/" f).
    cbn [filepath.split]. cbn [Ascii.eqb Bool.eqb].
    rewrite split_no_slash by exact Hf. reflexivity.
  - change (String c d +:+ "/" +:+ f) with (String c (d +:+ "/" +:+ f)).
    cbn [filepath.split]. destruct (Ascii.eqb c "/"); rewrite IH; reflexivity.
Qed.

Lemma rooted_app d t : d <> "" -> filepath.rooted (d +:+ t) = filepath.rooted d.
Proof. destruct d; done. Qed.

(** The path joined from a directory and a plain file name is a prefix that
    the directory alone decides, followed by the file name. *)
Lemma Join_prefix d :
  exists pre, forall f, plain f = true -> filepath.Join [d; f] = pre +:+ f.
Proof.
  destruct (String.eqb_spec d "") as [->|Hd].
  - exists "". intros f Hf. cbn [filepath.Join String.eqb].
    pose proof Hf as (_ & Hne & _)%plain_iff.
    apply String.eqb_neq in Hne. rewrite Hne.
    apply (Clean_clean_path false [f]); [constructor; done | done].
  - set (r := filepath.rooted d).
    set (st := fold_left (filepath.clean_step r) (filepath.split "" d) []).
    exists ((if r then "/" else "")
            +:+ match rev st with
                | [] => ""
                | e :: k => String.concat "/" (e :: k) +:+ "/"
                end).
    intros f Hf. cbn [filepath.Join]. apply String.eqb_neq in Hd as Hd'.
    rewrite Hd'.
    change (String.concat "/" [d; f]) with (d +:+ "/" +:+ f).
    rewrite Clean_render, rooted_app by exact Hd. fold r.
    rewrite split_snoc by apply plain_no_slash, Hf.
    rewrite fold_left_app. fold st. cbn [fold_left].
    rewrite clean_step_plain by exact Hf. cbn [rev].
    unfold render. destruct (rev st) as [|e k].
    + destruct r; reflexivity.
    + change ((e :: k) ++ [f]) with (e :: (k ++ [f])).
      change (e :: (k ++ [f])) with ((e :: k) ++ [f]).
      rewrite concat_snoc. destruct r.
      * rewrite !append_assoc. reflexivity.
      * destruct k; rewrite !append_assoc; reflexivity.
Qed.

Lemma log_names_differ :
  Forall (fun l1 =>
            Forall (fun l2 =>
                      zapcore.Level_String l1 +:+ ".log"
                      = zapcore.Level_String l2 +:+ ".log" -> l1 = l2) levels)
         levels.
Proof. repeat constructor; (reflexivity || discriminate). Qed.

Lemma Join_cleaned d f : f <> "" -> exists x, filepath.Join [d; f] = filepath.Clean x.
Proof.
  intros Hf%String.eqb_neq. cbn [filepath.Join].
  destruct (String.eqb d ""); [rewrite Hf|]; eauto.
Qed.

Lemma Clean_nonempty p : filepath.Clean p <> "".
Proof.
  destruct (Clean_cleaned p) as (kept & -> & n & ps & -> & Hps & Hr).
  unfold render. destruct (filepath.rooted p); [done|].
  destruct n as [|n]; cbn [replicate app].
  - destruct ps as [|e ps]; [done|].
    apply Forall_cons in Hps as [(_ & He & _)%plain_iff _].
    destruct e; [done|]. destruct ps; done.
  - destruct (replicate n ".." ++ ps); done.
Qed.

Lemma log_name_nonempty l : zapcore.Level_String l +:+ ".log" <> "".
Proof.
  destruct (zapcore.Level_String l) as [|c s] eqn:H; [|done]. done.
Qed.

Lemma log_path_inj cfg l1 l2 :
  l1 ∈ levels -> l2 ∈ levels -> log_path cfg l1 = log_path cfg l2 -> l1 = l2.
Proof.
  intros H1 H2 Heq. unfold log_path in Heq.
  destruct (Join_prefix (Director cfg)) as [pre Hpre].
  rewrite !Hpre in Heq by (apply log_name_plain; done).
  apply (inj (String.append pre)) in Heq.
  pose proof log_names_differ as Hd. rewrite Forall_forall in Hd.
  specialize (Hd l1 H1). rewrite Forall_forall in Hd. apply (Hd l2 H2), Heq.
Qed.

(** The joined path of a level is clean already: the handle of a sink is
    named by the very path that was opened. *)
Lemma log_path_clean cfg l : filepath.Clean (log_path cfg l) = log_path cfg l.
Proof.
  unfold log_path.
  destruct (Join_cleaned (Director cfg) (zapcore.Level_String l +:+ ".log"))
    as [x ->]; [apply log_name_nonempty|].
  apply Clean_idempotent.
Qed.

(** X1.  Whatever the configured directory, the seven sinks are seven
    different files: the joined paths of the levels are pairwise distinct,
    and each is clean already, so that the handle of a sink is named by the
    very path [getLogWriter] opened. *)
Theorem sinks_pairwise_distinct (cfg : ZapConfig) :
  Forall (fun l => sink_of cfg l = os.Opened (log_path cfg l) log_flags) levels /\
  NoDup (map (log_path cfg) levels) /\
  NoDup (map (sink_of cfg) levels).
Proof.
  split; [apply Forall_forall; intros l _; unfold sink_of;
          rewrite log_path_clean; reflexivity|].
  split.
  - apply (NoDup_fmap_2_strong (log_path cfg)); [|apply levels_NoDup].
    intros l1 l2. apply log_path_inj.
  - apply (NoDup_fmap_2_strong (sink_of cfg)); [|apply levels_NoDup].
    intros l1 l2 H1 H2 [= Heq]. rewrite !log_path_clean in Heq.
    eapply log_path_inj; eauto.
Qed.

(** ** Initialising again *)

Lemma resolve_present s name n :
  name <> "" -> os.nodes s !! filepath.Clean name = Some n ->
  is_Some (os.resolve s name).
Proof.
  intros Hne%String.eqb_neq Hn. unfold os.resolve. rewrite Hne.
  destruct (os.always_there _); eauto.
Qed.

Lemma resolve_mono s s' name :
  (forall k n, os.nodes s !! k = Some n -> os.nodes s' !! k = Some n) ->
  is_Some (os.resolve s name) -> is_Some (os.resolve s' name).
Proof.
  intros Hkeep. unfold os.resolve. destruct (String.eqb name ""); [done|].
  destruct (os.always_there _); [done|]. intros [n Hn]. eauto.
Qed.

Lemma resolve_same_nodes s s' name :
  os.nodes s' = os.nodes s -> os.resolve s' name = os.resolve s name.
Proof. intros H. unfold os.resolve. rewrite H. reflexivity. Qed.

(** Opening a log file where something is already changes no node. *)
Lemma OpenFile_log_present name s s' r :
  is_Some (os.resolve s name) ->
  os.OpenFile name log_flags log_perm s = (s', r) ->
  os.nodes s' = os.nodes s.
Proof.
  intros [n Hn]. unfold os.OpenFile.
  destruct log_flags_bits as (_ & Hc & _ & Ht & Hx & _).
  rewrite Hc, Ht, Hx, Hn. cbn [andb].
  destruct (os.fault s _); [intros [= <- _]; done|].
  destruct n; intros [= <- _]; done.
Qed.

Lemma range_levels_present sem cfg encoder shared todo : forall cores w w' r,
  (forall l, l ∈ todo -> is_Some (os.resolve (sys w) (log_path cfg l))) ->
  range_levels sem cfg encoder shared todo cores w = (w', r) ->
  os.nodes (sys w') = os.nodes (sys w).
Proof.
  induction todo as [|level rest IH]; intros cores w w' r Hall.
  { intros [= <- _]. done. }
  rewrite range_levels_step.
  destruct (bind_level _ _ _ _) as [h1 cell].
  destruct (os.OpenFile _ _ _ _) as [s1 r1] eqn:Hopen.
  apply OpenFile_log_present in Hopen as Hsame; [|apply Hall; left].
  destruct r1 as [writer|err].
  - intros H. apply IH in H; [cbn [sys] in H; congruence|].
    intros l Hl. cbn [sys]. rewrite (resolve_same_nodes _ _ _ Hsame).
    apply Hall. right. done.
  - intros [= <- _]. done.
Qed.

Lemma setupCores_present sem cfg w w' r :
  (forall l, l ∈ levels -> is_Some (os.resolve (sys w) (log_path cfg l))) ->
  setupCores sem cfg w = (w', r) ->
  os.nodes (sys w') = os.nodes (sys w).
Proof.
  intros Hall. rewrite setupCores_range.
  destruct sem; intros H; apply range_levels_present in H; done.
Qed.

Lemma log_path_nonempty cfg l : log_path cfg l <> "".
Proof.
  unfold log_path.
  destruct (Join_cleaned (Director cfg) (zapcore.Level_String l +:+ ".log"))
    as [x ->]; [apply log_name_nonempty|]. apply Clean_nonempty.
Qed.

(** Once the directory handling went through, the directory is there. *)
Lemma prepare_None_present cfg w w1 :
  prepare cfg w = (w1, None) -> is_Some (os.resolve (sys w1) (Director cfg)).
Proof.
  intros Hp. rewrite prepare_spec in Hp. cbn zeta in Hp.
  destruct (stat_finds _ _) eqn:Hstat.
  - injection Hp as <-. cbn [sys with_sys].
    apply stat_finds_resolve in Hstat. unfold os.resolve in *. done.
  - destruct (mkdir_can _ _ _) eqn:Hcan; [|done]. injection Hp as <-.
    apply mkdir_can_free in Hcan as (_ & _ & Hpar).
    apply (resolve_present _ _ os.Directory).
    + intros Hd. unfold os.parent in Hpar. rewrite Hd in Hpar. done.
    + cbn. apply lookup_insert_eq.
Qed.

(** What a successful initialisation leaves: the directory and the files of
    all the levels are there. *)
Lemma initLogger_None_present sem cfg w w' :
  initLogger sem cfg w = (w', None) ->
  is_Some (os.resolve (sys w') (Director cfg)) /\
  forall l, l ∈ levels -> is_Some (os.resolve (sys w') (log_path cfg l)).
Proof.
  intros (w1 & w2 & cs & Hp & Hs & ->)%initLogger_None. cbn [sys].
  pose proof (setupCores_files _ _ _ _ _ Hs) as Hfiles.
  apply setupCores_frame in Hs as (_ & _ & _ & Hkeep & _).
  split.
  - apply (resolve_mono (sys w1)); [exact Hkeep|].
    eapply prepare_None_present, Hp.
  - intros l Hl. destruct (Hfiles l Hl) as [content Hnode].
    eapply resolve_present; [apply log_path_nonempty | exact Hnode].
Qed.

(** X2.  Initialising again with the configuration of a successful
    initialisation changes no node of the file system, however it ends: the
    directory and the seven files are found, nothing is created and nothing
    is truncated. *)
Theorem reinitialisation_keeps_nodes (sem sem' : LoopVar) (cfg : ZapConfig)
  (w w1 w2 : World) (r : option error) :
  initLogger sem cfg w = (w1, None) ->
  initLogger sem' cfg w1 = (w2, r) ->
  os.nodes (sys w2) = os.nodes (sys w1).
Proof.
  intros (Hdir & Hfiles)%initLogger_None_present H.
  apply initLogger_cases in H as (wq & r1 & Hp & H).
  assert (os.nodes (sys wq) = os.nodes (sys w1)) as Hq.
  { rewrite prepare_spec in Hp. cbn zeta in Hp.
    destruct (stat_finds _ _); [injection Hp as <- _; done|].
    destruct Hdir as [n Hn]. rewrite (mkdir_can_present _ _ _ _ Hn) in Hp.
    injection Hp as <- _. done. }
  destruct r1 as [e|]; [destruct H as [-> _]; exact Hq|].
  unfold install in H.
  destruct (setupCores sem' cfg wq) as [w3 [cs|err]] eqn:Hs;
    injection H as <- _; cbn [sys];
    (apply setupCores_present in Hs; [congruence|]);
    intros l Hl; rewrite (resolve_same_nodes _ _ _ Hq); apply Hfiles, Hl.
Qed.

Lemma reinitialisation_keeps_nodes_witness :
  os.nodes (sys (fst (initLogger PerLoop demo_cfg demo_ready)))
  = os.nodes (sys demo_ready).
Proof.
  apply (reinitialisation_keeps_nodes PerIteration PerLoop demo_cfg fresh
           demo_ready (fst (initLogger PerLoop demo_cfg demo_ready))
           (snd (initLogger PerLoop demo_cfg demo_ready))).
  - vm_compute. reflexivity.
  - apply surjective_pairing.
Defined.

(** ** What a failed initialisation leaves *)

Lemma range_levels_Err_files sem cfg encoder shared todo : forall cores w w' err,
  range_levels sem cfg encoder shared todo cores w = (w', Err err) ->
  exists visited level rest errno,
    todo = visited ++ level :: rest /\
    err = log_file_error cfg level errno /\
    forall l, l ∈ visited ->
      exists content,
        os.nodes (sys w') !! filepath.Clean (log_path cfg l)
        = Some (os.Regular content).
Proof.
  induction todo as [|level rest IH]; intros cores w w' err; [done|].
  rewrite range_levels_step.
  destruct (bind_level _ _ _ _) as [h1 cell].
  destruct (os.OpenFile _ _ _ _) as [s1 r1] eqn:Hopen.
  destruct r1 as [writer|e].
  - intros Hrest. pose proof Hrest as (_ & _ & _ & Hkeep & _)%range_levels_frame.
    apply IH in Hrest as (visited & l & rest' & errno & -> & -> & Hfiles).
    exists (level :: visited), l, rest', errno. split; [done|]. split; [done|].
    intros l' [->|Hl']%elem_of_cons; [|eauto].
    apply OpenFile_log_node in Hopen as [content Hnode].
    exists content. apply Hkeep. exact Hnode.
  - intros [= <- <-].
    apply OpenFile_log in Hopen as (_ & _ & _ & _ & _ & [[errno ->] _]).
    exists [], level, rest, errno. split; [done|]. split; [done|].
    intros l Hl. apply elem_of_nil in Hl. done.
Qed.

(** X3.  What a failed initialisation leaves behind.  If the directory
    could not be made, the nodes are those before.  If the file of a level
    could not be opened, the directory is there and the files of all the
    levels visited before it are there as regular files: the build is
    aborted, not undone. *)
Theorem failed_build_leaves_earlier_files (sem : LoopVar) (cfg : ZapConfig)
  (w w' : World) (err : error) :
  initLogger sem cfg w = (w', Some err) ->
  ((exists errno, err = mkdir_error cfg errno) /\
   os.nodes (sys w') = os.nodes (sys w)) \/
  (exists visited level rest errno,
      levels = visited ++ level :: rest /\
      err = log_file_error cfg level errno /\
      is_Some (os.resolve (sys w') (Director cfg)) /\
      forall l, l ∈ visited ->
        exists content,
          os.nodes (sys w') !! filepath.Clean (log_path cfg l)
          = Some (os.Regular content)).
Proof.
  intros [Hp|(w1 & Hp & Hs)]%initLogger_Some.
  - left. rewrite prepare_spec in Hp. cbn zeta in Hp.
    destruct (stat_finds _ _); [done|]. destruct (mkdir_can _ _ _); [done|].
    injection Hp as <- <-. eauto.
  - right. pose proof Hs as (_ & _ & _ & Hkeep & _)%setupCores_frame.
    rewrite setupCores_range in Hs.
    assert (exists visited level rest errno,
              levels = visited ++ level :: rest /\
              err = log_file_error cfg level errno /\
              forall l, l ∈ visited ->
                exists content,
                  os.nodes (sys w') !! filepath.Clean (log_path cfg l)
                  = Some (os.Regular content))
      as (visited & level & rest & errno & Hl & He & Hfiles).
    { destruct sem; apply range_levels_Err_files in Hs; exact Hs. }
    exists visited, level, rest, errno. repeat (split; [done|]). split; [|done].
    apply (resolve_mono (sys w1)); [exact Hkeep|].
    eapply prepare_None_present, Hp.
Qed.

Lemma failed_build_leaves_earlier_files_witness :
  exists visited level rest errno,
    levels = visited ++ level :: rest /\
    log_file_error demo_cfg zapcore.WarnLevel EACCES
    = log_file_error demo_cfg level errno /\
    is_Some (os.resolve (sys (fst (initLogger PerIteration demo_cfg refusing)))
               (Director demo_cfg)) /\
    forall l, l ∈ visited ->
      exists content,
        os.nodes (sys (fst (initLogger PerIteration demo_cfg refusing)))
          !! filepath.Clean (log_path demo_cfg l)
        = Some (os.Regular content).
Proof.
  destruct (failed_build_leaves_earlier_files PerIteration demo_cfg refusing
              (fst (initLogger PerIteration demo_cfg refusing))
              (log_file_error demo_cfg zapcore.WarnLevel EACCES))
    as [[[errno Habs] _]|H].
  - vm_compute. reflexivity.
  - vm_compute in Habs. discriminate Habs.
  - exact H.
Defined.

(** ** [Init] and the emit functions *)

(** What [Init] returns.  A configuration file that cannot be read or
    unmarshalled gives the corresponding error and the installed logger
    stays; otherwise [Init] is [initLogger] on the configuration. *)
Lemma Init_cases sem viper configFile w w' r :
  Init sem viper configFile w = (w', r) ->
  match viper configFile with
  | ReadFailed e =>
      sugaredLogger w' = sugaredLogger w /\
      r = Some (errorString ("error reading config file: " +:+ error_Error e))
  | UnmarshalFailed e =>
      sugaredLogger w' = sugaredLogger w /\
      r = Some (errorString ("error unmarshalling config to struct: "
                             +:+ error_Error e))
  | Unmarshalled cfg => initLogger sem cfg w = (w', r)
  end.
Proof.
  unfold Init. destruct (viper configFile) as [e|e|cfg].
  - intros [= <- <-]. done.
  - intros [= <- <-]. done.
  - done.
Qed.

Lemma emit_nil lvl msg site now w :
  sugaredLogger w = None -> emit lvl msg site now w = NilDereference.
Proof. unfold emit. intros ->. reflexivity. Qed.

Lemma emit_installed lvl msg site now w sl :
  sugaredLogger w = Some sl -> emit lvl msg site now w <> NilDereference.
Proof.
  unfold emit. intros ->. destruct (zap.log _ _ _ _ _ _ _) as [s1 []]; done.
Qed.

(** X5.  In a process whose logger was never installed, [Init] decides
    whether the emit functions can be called: each of the ten dereferences
    the nil logger exactly when [Init] returned an error. *)
Theorem emit_needs_successful_Init (sem : LoopVar) (viper : string -> Loaded)
  (configFile : string) (w w' : World) (r : option error) :
  sugaredLogger w = None ->
  Init sem viper configFile w = (w', r) ->
  Forall (fun f => forall msg site now,
                     f msg site now w' = NilDereference <-> r <> None)
         emit_functions.
Proof.
  intros Hnil H.
  assert (forall lvl msg site now,
            emit lvl msg site now w' = NilDereference <-> r <> None) as Hemit.
  { intros lvl msg site now. destruct r as [err|].
    - split; [done|]. intros _. apply emit_nil.
      apply Init_cases in H. destruct (viper configFile) as [e|e|cfg].
      + destruct H as [-> _]. exact Hnil.
      + destruct H as [-> _]. exact Hnil.
      + apply initLogger_error_keeps_logger in H. rewrite H. exact Hnil.
    - split; [|done]. intros Habs. exfalso. revert Habs.
      apply Init_cases in H. destruct (viper configFile) as [e|e|cfg];
        [destruct H; done..|].
      apply initLogger_None in H as (w1 & w2 & cs & _ & _ & ->).
      eapply emit_installed. reflexivity. }
  unfold emit_functions.
  repeat (apply Forall_cons; split; [intros msg site now; apply Hemit|]).
  constructor.
Qed.

Lemma emit_needs_successful_Init_witness :
  Forall (fun f => forall msg site now,
            f msg site now (fst (Init PerIteration demo_viper "broken.yaml" fresh))
            = NilDereference
            <-> snd (Init PerIteration demo_viper "broken.yaml" fresh) <> None)
         emit_functions.
Proof.
  apply (emit_needs_successful_Init PerIteration demo_viper "broken.yaml" fresh).
  - reflexivity.
  - apply surjective_pairing.
Defined.

(** ** What the emit functions write *)

(** One log call through a logger built with a variable per iteration: how
    it ends is decided by the level alone, and it appends its line to the
    file of the level. *)
Lemma emit_one_file cfg w w' lvl msg site now :
  initLogger PerIteration cfg w = (w', None) ->
  lvl ∈ levels ->
  exists s2 content,
    emit lvl msg site now w' =
      match zap.terminal lvl msg with
      | zap.Continue => Returns (with_sys s2 w')
      | zap.Exit code => Exits (with_sys s2 w') code
      | zap.Panic m => Panics (with_sys s2 w') m
      end /\
    os.nodes (sys w') !! log_path cfg lvl = Some (os.Regular content) /\
    os.nodes s2 =
      <[log_path cfg lvl := os.Regular (content ++ [line_of cfg lvl msg site now])]>
        (os.nodes (sys w')).
Proof.
  intros H Hin. pose proof (log_path_clean cfg lvl) as Hclean.
  apply initLogger_None in H as (w1 & w2 & cs & Hp & Hs & ->).
  pose proof (setupCores_files _ _ _ _ _ Hs lvl Hin) as [content Hnode].
  apply setupCores_Ok in Hs as (-> & Hheap & _).
  rewrite Hclean in Hnode.
  unfold emit, zap.log. cbn [sugaredLogger zap.base zap.core heap sys cells_of].
  rewrite Hheap.
  pose proof (fresh_cells_hold levels (heap w1)) as Hcells.
  pose proof (Check_cores_of cfg (encoder_of cfg) _ lvl _ _ Hcells) as Hroute.
  rewrite (filter_eq_NoDup _ _ levels_NoDup) in Hroute.
  rewrite bool_decide_eq_true_2 in Hroute by exact Hin.
  pose proof (Check_cores_of_enc cfg (encoder_of cfg) (heap w1 ++ levels) lvl
                (seq (length (heap w1)) (length levels)) levels) as Henc.
  set (checked := zapcore.Check _ _ lvl) in *.
  destruct checked as [|c [|c' rest]]; [done| |done].
  injection Hroute as Hout. apply Forall_cons in Henc as [Hc _].
  eexists _, content. split; [reflexivity|]. split; [exact Hnode|].
  unfold zapcore.Write. cbn [fold_left]. rewrite Hout, Hc.
  unfold sink_of, os.File_Write. rewrite Hclean, Hnode.
  destruct log_flags_bits as (-> & _). reflexivity.
Qed.

(** X6.  With a variable per iteration: [Fatal] and [Fatalf] append their
    line to the file of [FatalLevel] and then end the process with status 1,
    while the eight other emit functions return. *)
Theorem Fatal_writes_then_exits (cfg : ZapConfig) (w w' : World)
  (msg : string) (site : zapcore.EntryCaller) (now : zapcore.Time) :
  initLogger PerIteration cfg w = (w', None) ->
  (exists content,
      os.nodes (sys w') !! log_path cfg zapcore.FatalLevel
      = Some (os.Regular content) /\
      Forall (fun f =>
                exists w2,
                  f msg site now w' = Exits w2 1 /\
                  os.nodes (sys w2) !! log_path cfg zapcore.FatalLevel
                  = Some (os.Regular
                            (content ++ [line_of cfg zapcore.FatalLevel msg site now])))
             [Fatal; Fatalf]) /\
  Forall (fun f => exists w2, f msg site now w' = Returns w2)
         [Info; Infof; Error; Errorf; Debug; Debugf; Warn; Warnf].
Proof.
  intros H. split.
  - destruct (emit_one_file cfg w w' zapcore.FatalLevel msg site now H)
      as (s2 & content & He & Hnode & Hs2); [unfold levels; repeat constructor|].
    exists content. split; [exact Hnode|].
    repeat (apply Forall_cons; split;
            [exists (with_sys s2 w'); split; [exact He|];
             cbn [sys with_sys]; rewrite Hs2; apply lookup_insert_eq|]).
    constructor.
  - assert (forall lvl, lvl ∈ levels -> zap.terminal lvl msg = zap.Continue ->
                        exists w2, emit lvl msg site now w' = Returns w2) as Hret.
    { intros lvl Hin Hterm.
      destruct (emit_one_file cfg w w' lvl msg site now H Hin)
        as (s2 & content & He & _). rewrite Hterm in He. eauto. }
    repeat (apply Forall_cons; split;
            [apply Hret; [unfold levels; repeat constructor | reflexivity]|]).
    constructor.
Qed.

Lemma Fatal_writes_then_exits_witness :
  Forall (fun f => exists w2, f "up" demo_site demo_now demo_ready = Returns w2)
         [Info; Infof; Error; Errorf; Debug; Debugf; Warn; Warnf].
Proof.
  apply (Fatal_writes_then_exits demo_cfg fresh demo_ready "up" demo_site demo_now).
  vm_compute. reflexivity.
Defined.

(** X7.  With a variable per iteration: none of the ten emit functions
    ever changes the files of [DPanicLevel] and [PanicLevel]; the package
    opens them and has no function that logs at those levels. *)
Theorem panic_files_never_written (cfg : ZapConfig) (w w' : World) :
  initLogger PerIteration cfg w = (w', None) ->
  Forall (fun f =>
            forall msg site now w2,
              world_after (f msg site now w') = Some w2 ->
              Forall (fun l =>
                        os.nodes (sys w2) !! log_path cfg l
                        = os.nodes (sys w') !! log_path cfg l)
                     [zapcore.DPanicLevel; zapcore.PanicLevel])
         emit_functions.
Proof.
  intros H.
  assert (forall lvl, lvl ∈ levels ->
            lvl <> zapcore.DPanicLevel -> lvl <> zapcore.PanicLevel ->
            forall msg site now w2,
              world_after (emit lvl msg site now w') = Some w2 ->
              Forall (fun l =>
                        os.nodes (sys w2) !! log_path cfg l
                        = os.nodes (sys w') !! log_path cfg l)
                     [zapcore.DPanicLevel; zapcore.PanicLevel]) as Hemit.
  { intros lvl Hin Hd Hp msg site now w2 Hafter.
    destruct (emit_one_file cfg w w' lvl msg site now H Hin)
      as (s2 & content & He & _ & Hs2).
    assert (os.nodes (sys w2) = os.nodes s2) as ->.
    { rewrite He in Hafter. destruct (zap.terminal lvl msg);
        injection Hafter as <-; reflexivity. }
    rewrite Hs2.
    repeat (apply Forall_cons; split;
            [apply lookup_insert_ne; intros Heq;
             apply log_path_inj in Heq;
               [done | done | unfold levels; repeat constructor]|]).
    constructor. }
  unfold emit_functions.
  repeat (apply Forall_cons; split;
          [apply Hemit; [unfold levels; repeat constructor | done | done]|]).
  constructor.
Qed.

Lemma panic_files_never_written_witness :
  Forall (fun f =>
            forall msg site now w2,
              world_after (f msg site now demo_ready) = Some w2 ->
              Forall (fun l =>
                        os.nodes (sys w2) !! log_path demo_cfg l
                        = os.nodes (sys demo_ready) !! log_path demo_cfg l)
                     [zapcore.DPanicLevel; zapcore.PanicLevel])
         emit_functions.
Proof.
  apply (panic_files_never_written demo_cfg fresh demo_ready).
  vm_compute. reflexivity.
Defined.

(** ** One variable for the whole loop *)

Lemma filter_all {A} (P : A -> Prop) `{forall x, Decision (P x)} (l : list A) :
  Forall P l -> filter P l = l.
Proof.
  induction 1 as [|x l Hx _ IH]; [done|].
  rewrite filter_cons, decide_True by done. by rewrite IH.
Qed.

Lemma filter_none {A} (P : A -> Prop) `{forall x, Decision (P x)} (l : list A) :
  Forall (fun x => ~ P x) l -> filter P l = [].
Proof.
  induction 1 as [|x l Hx _ IH]; [done|].
  rewrite filter_cons, decide_False by done. exact IH.
Qed.

(** X8.  With one variable for the whole loop (Go before 1.22): the seven
    cores are still on the seven files, but an entry of [FatalLevel] is
    taken by all of them and an entry of any other level by none, so that
    a call at another level leaves the file system as it is. *)
Theorem shared_variable_routing (cfg : ZapConfig) (w w' : World) :
  initLogger PerLoop cfg w = (w', None) ->
  map zapcore.out (installed_cores w') = map (sink_of cfg) levels /\
  (forall lvl,
      zapcore.Check (heap w') (installed_cores w') lvl
      = if lvl =? zapcore.FatalLevel then installed_cores w' else []) /\
  (forall lvl msg site now w2,
      lvl <> zapcore.FatalLevel ->
      world_after (emit lvl msg site now w') = Some w2 ->
      sys w2 = sys w').
Proof.
  intros H.
  pose proof (shared_loop_variable_takes_fatal_only cfg w w' H) as Hfatal.
  assert (forall lvl,
            zapcore.Check (heap w') (installed_cores w') lvl
            = if lvl =? zapcore.FatalLevel then installed_cores w' else [])
    as Hcheck.
  { intros lvl. unfold zapcore.Check.
    destruct (Z.eqb_spec lvl zapcore.FatalLevel) as [->|Hne].
    - apply filter_all, Forall_forall. intros c Hc.
      apply Is_true_true, (Hfatal c Hc). reflexivity.
    - apply filter_none, Forall_forall. intros c Hc Hen.
      apply Is_true_true, (Hfatal c Hc) in Hen. done. }
  split; [|split; [exact Hcheck|]].
  - apply initLogger_None in H as (w1 & w2 & cs & _ & Hs & ->).
    apply setupCores_Ok in Hs as (-> & _).
    unfold installed_cores. cbn [sugaredLogger zap.base zap.core].
    apply cores_of_out, cells_of_length.
  - intros lvl msg site now w2 Hne Hafter.
    apply Z.eqb_neq in Hne. specialize (Hcheck lvl). rewrite Hne in Hcheck.
    unfold emit, installed_cores in *.
    destruct (sugaredLogger w') as [sl|]; [|done].
    unfold zap.log in Hafter. rewrite Hcheck in Hafter.
    cbn [zapcore.Write fold_left] in Hafter.
    destruct (zap.terminal lvl msg); injection Hafter as <-; reflexivity.
Qed.

Lemma shared_variable_routing_witness :
  zapcore.Check (heap (fst (initLogger PerLoop demo_cfg fresh)))
    (installed_cores (fst (initLogger PerLoop demo_cfg fresh))) zapcore.InfoLevel
  = [].
Proof.
  apply (shared_variable_routing demo_cfg fresh
           (fst (initLogger PerLoop demo_cfg fresh))).
  vm_compute. reflexivity.
Defined.

(** ** The records *)

(** X9.  The keys of a record.  Every line a log call writes through the
    installed logger carries exactly the time, the level, the caller and the
    message, in the order of the encoder kind: no logger name, and never the
    configured stack trace key, since the logger has no name and takes no
    stack traces. *)
Theorem record_keys (sem : LoopVar) (cfg : ZapConfig) (w w' : World) :
  initLogger sem cfg w = (w', None) ->
  forall lvl msg site now fields,
    zapcore.Defined site = true ->
    fields ∈ emitted_fields w' lvl msg site now ->
    map fst fields
    = if String.eqb (Format cfg) "json"
      then ["level"; "time"; "caller"; "msg"]
      else ["time"; "level"; "caller"; "msg"].
Proof.
  intros H lvl msg site now fields Hdef Hin.
  apply initLogger_None in H as (w1 & w2 & cs & _ & Hs & ->).
  apply setupCores_Ok in Hs as (-> & _).
  unfold emitted_fields in Hin. cbn [sugaredLogger zap.base zap.core] in Hin.
  apply list_elem_of_fmap in Hin as (c & -> & Hc).
  unfold zapcore.Check in Hc. apply list_elem_of_filter in Hc as [_ Hc].
  pose proof (cores_of_enc cfg (encoder_of cfg)
                (cells_of sem (length (heap w1)) (heap w1) (length levels))
                levels) as Henc.
  rewrite Forall_forall in Henc. rewrite (Henc c Hc).
  unfold zapcore.entry_fields, encoder_of, zap.entry_of.
  cbn [zapcore.config zapcore.kind EncoderConfig zap.addCaller
       zapcore.Caller zapcore.LoggerName zapcore.Stack
       zapcore.TimeKey zapcore.LevelKey zapcore.NameKey zapcore.CallerKey
       zapcore.MessageKey].
  rewrite Hdef.
  destruct (String.eqb (Format cfg) "json"); reflexivity.
Qed.

Lemma record_keys_witness :
  map fst
    [("time", "2024-03-05 07:08:09.012"); ("level", "[INFO]");
     ("caller", "logger/logger.go:171"); ("msg", "ready")]
  = ["time"; "level"; "caller"; "msg"].
Proof.
  apply (record_keys PerIteration demo_cfg fresh demo_ready
           ltac:(vm_compute; reflexivity)
           zapcore.InfoLevel "ready" demo_site demo_now).
  - reflexivity.
  - vm_compute. constructor.
Defined.

(** ** Sequences of log calls *)

Lemma grown_refl s : grown s s.
Proof.
  intros k. destruct (os.nodes s !! k) as [[|content]|]; try done.
  exists []. by rewrite app_nil_r.
Qed.

Lemma grown_trans s1 s2 s3 : grown s1 s2 -> grown s2 s3 -> grown s1 s3.
Proof.
  intros H12 H23 k. specialize (H12 k). specialize (H23 k).
  destruct (os.nodes s1 !! k) as [[|content]|].
  - rewrite H12 in H23. exact H23.
  - destruct H12 as [more H12]. rewrite H12 in H23.
    destruct H23 as [more' H23]. exists (more ++ more').
    rewrite H23, app_assoc. reflexivity.
  - rewrite H12 in H23. exact H23.
Qed.

Lemma File_Write_grown key chunk s :
  grown s (os.File_Write (os.Opened key log_flags) chunk s).
Proof.
  unfold os.File_Write.
  destruct (os.nodes s !! key) as [[|content]|] eqn:Hkey; try apply grown_refl.
  destruct log_flags_bits as (-> & _).
  intros k. cbn [os.nodes os.set_node]. rewrite lookup_insert.
  case_decide as Hk.
  - subst k. rewrite Hkey. eauto.
  - destruct (os.nodes s !! k) as [[|c]|]; try done.
    exists []. by rewrite app_nil_r.
Qed.

Lemma File_Write_frame key flag chunk s :
  os.calls (os.File_Write (os.Opened key flag) chunk s) = os.calls s /\
  os.stdout (os.File_Write (os.Opened key flag) chunk s) = os.stdout s /\
  os.fault (os.File_Write (os.Opened key flag) chunk s) = os.fault s.
Proof.
  unfold os.File_Write.
  destruct (os.nodes s !! key) as [[|content]|]; try done.
  destruct (os.has_flag flag os.O_APPEND); done.
Qed.

Lemma Write_grown ent : forall checked s,
  package_sinks checked ->
  grown s (zapcore.Write checked ent s) /\
  os.calls (zapcore.Write checked ent s) = os.calls s /\
  os.stdout (zapcore.Write checked ent s) = os.stdout s.
Proof.
  unfold zapcore.Write.
  induction checked as [|c checked IH]; intros s Hall.
  { split; [apply grown_refl|done]. }
  apply Forall_cons in Hall as [[key Hc] Hall]. cbn [fold_left]. rewrite Hc.
  destruct (IH (os.File_Write (os.Opened key log_flags)
                  (zapcore.EncodeEntry (zapcore.enc c) ent) s) Hall)
    as (Hg & Hcalls & Hout).
  destruct (File_Write_frame key log_flags
              (zapcore.EncodeEntry (zapcore.enc c) ent) s) as (Hc1 & Hc2 & _).
  split; [|split; congruence].
  eapply grown_trans; [apply File_Write_grown | exact Hg].
Qed.

Lemma emit_grown lvl msg site now w w2 :
  package_sinks (installed_cores w) ->
  world_after (emit lvl msg site now w) = Some w2 ->
  grown (sys w) (sys w2) /\
  os.calls (sys w2) = os.calls (sys w) /\
  os.stdout (sys w2) = os.stdout (sys w) /\
  heap w2 = heap w /\ sugaredLogger w2 = sugaredLogger w.
Proof.
  unfold emit, installed_cores. intros Hsinks.
  destruct (sugaredLogger w) as [sl|] eqn:Hsl; [|done].
  unfold zap.log.
  assert (package_sinks (zapcore.Check (heap w) (zap.core (zap.base sl)) lvl))
    as Hchecked.
  { unfold zapcore.Check, package_sinks in *. rewrite Forall_forall in Hsinks.
    apply Forall_forall. intros c [_ Hc]%list_elem_of_filter. eauto. }
  destruct (Write_grown (zap.entry_of (zap.base sl) lvl msg site now) _ (sys w)
              Hchecked) as (Hg & Hcalls & Hout).
  destruct (zap.terminal lvl msg); intros [= <-]; cbn [sys heap sugaredLogger with_sys];
    rewrite ?Hsl; done.
Qed.

Lemma emit_all_grown calls : forall w w2,
  package_sinks (installed_cores w) ->
  world_after (emit_all calls w) = Some w2 ->
  grown (sys w) (sys w2) /\
  os.calls (sys w2) = os.calls (sys w) /\
  os.stdout (sys w2) = os.stdout (sys w) /\
  sugaredLogger w2 = sugaredLogger w.
Proof.
  induction calls as [|[[[lvl msg] site] now] rest IH]; intros w w2 Hsinks.
  { intros [= <-]. split; [apply grown_refl|done]. }
  cbn [emit_all].
  destruct (emit lvl msg site now w) as [w1|w1 code|w1 m|] eqn:He; [| | |done].
  - intros Hrest.
    destruct (emit_grown lvl msg site now w w1 Hsinks) as (Hg & Hc & Ho & _ & Hl);
      [rewrite He; done|].
    destruct (IH w1 w2) as (Hg' & Hc' & Ho' & Hl'); [|done|].
    { unfold installed_cores in *. rewrite Hl. exact Hsinks. }
    split; [eapply grown_trans; eauto|]. repeat split; congruence.
  - intros [= <-].
    destruct (emit_grown lvl msg site now w w1 Hsinks) as (Hg & Hc & Ho & _ & Hl);
      [rewrite He; done|]. done.
  - intros [= <-].
    destruct (emit_grown lvl msg site now w w1 Hsinks) as (Hg & Hc & Ho & _ & Hl);
      [rewrite He; done|]. done.
Qed.

Lemma initLogger_package_sinks sem cfg w w' :
  initLogger sem cfg w = (w', None) -> package_sinks (installed_cores w').
Proof.
  intros (w1 & w2 & cs & _ & Hs & ->)%initLogger_None.
  apply setupCores_Ok in Hs as (-> & _).
  unfold installed_cores, cores_of, package_sinks.
  cbn [sugaredLogger zap.base zap.core].
  apply Forall_forall. intros c Hc.
  apply list_elem_of_lookup in Hc as [i Hc].
  apply lookup_zip_with_Some in Hc as (cell & l & -> & _).
  eexists. reflexivity.
Qed.

(** X10.  Log files only grow.  After a successful initialisation, any
    sequence of log calls leaves every directory and every absent path as it
    was and every regular file with its former content as a prefix of the
    new one; it issues no further open, stat or mkdir call, prints nothing on
    standard output and keeps the installed logger. *)
Theorem log_files_only_grow (sem : LoopVar) (cfg : ZapConfig) (w w' w2 : World)
  (calls : list Call) :
  initLogger sem cfg w = (w', None) ->
  world_after (emit_all calls w') = Some w2 ->
  grown (sys w') (sys w2) /\
  os.calls (sys w2) = os.calls (sys w') /\
  os.stdout (sys w2) = os.stdout (sys w') /\
  sugaredLogger w2 = sugaredLogger w'.
Proof.
  intros H. apply emit_all_grown. eapply initLogger_package_sinks, H.
Qed.

Lemma log_files_only_grow_witness :
  grown (sys demo_ready) (sys demo_after) /\
  os.calls (sys demo_after) = os.calls (sys demo_ready) /\
  os.stdout (sys demo_after) = os.stdout (sys demo_ready) /\
  sugaredLogger demo_after = sugaredLogger demo_ready.
Proof.
  apply (log_files_only_grow PerIteration demo_cfg fresh demo_ready demo_after
           demo_calls).
  - vm_compute. reflexivity.
  - vm_compute. reflexivity.
Defined.

(** ** The time layout *)

Lemma length_append s t :
  String.length (s +:+ t) = (String.length s + String.length t)%nat.
Proof.
  induction s as [|c s IH]; [reflexivity|].
  change (String c s +:+ t) with (String c (s +:+ t)). cbn. by rewrite IH.
Qed.

Lemma digits_width (width : nat) (bound : Z) :
  Forall (fun n => String.length (zapcore.digits width n) = width
                   /\ all_digits (zapcore.digits width n) = true)
         (seqZ 0 bound) ->
  forall n, 0 <= n < bound ->
    String.length (zapcore.digits width n) = width
    /\ all_digits (zapcore.digits width n) = true.
Proof.
  intros H n Hn. rewrite Forall_forall in H. apply H, elem_of_seqZ. lia.
Qed.

Lemma digits_2 n : 0 <= n < 100 ->
  String.length (zapcore.digits 2 n) = 2%nat
  /\ all_digits (zapcore.digits 2 n) = true.
Proof.
  apply digits_width, (bool_decide_unpack _). vm_compute. exact I.
Qed.

Lemma digits_3 n : 0 <= n < 1000 ->
  String.length (zapcore.digits 3 n) = 3%nat
  /\ all_digits (zapcore.digits 3 n) = true.
Proof.
  apply digits_width, (bool_decide_unpack _). vm_compute. exact I.
Qed.

Lemma digits_4 n : 0 <= n < 10000 ->
  String.length (zapcore.digits 4 n) = 4%nat
  /\ all_digits (zapcore.digits 4 n) = true.
Proof.
  apply digits_width, (bool_decide_unpack _). vm_compute. exact I.
Qed.

(** X11.  The time of a record.  For a time with clock fields in their
    ranges the time encoder renders 23 characters: four digits of year, two
    each of month, day, hour, minute and second, three of milliseconds, with
    the separators of the layout between them. *)
Theorem time_layout (t : zapcore.Time) :
  valid_time t ->
  exists y mo d h mi s ms,
    zapcore.Time_Format t
    = y +:+ "-" +:+ mo +:+ "-" +:+ d +:+ " " +:+ h +:+ ":" +:+ mi +:+ ":"
      +:+ s +:+ "." +:+ ms /\
    Forall (fun part => String.length (fst part) = snd part
                        /\ all_digits (fst part) = true)
           [(y, 4%nat); (mo, 2%nat); (d, 2%nat); (h, 2%nat); (mi, 2%nat);
            (s, 2%nat); (ms, 3%nat)] /\
    String.length (zapcore.Time_Format t) = 23%nat.
Proof.
  intros (Hy & Hmo & Hd & Hh & Hmi & Hs & Hms).
  pose proof (digits_4 (zapcore.year t) Hy) as [Ly Dy].
  pose proof (digits_2 (zapcore.month t) ltac:(lia)) as [Lmo Dmo].
  pose proof (digits_2 (zapcore.day t) ltac:(lia)) as [Ld Dd].
  pose proof (digits_2 (zapcore.hour t) ltac:(lia)) as [Lh Dh].
  pose proof (digits_2 (zapcore.minute t) ltac:(lia)) as [Lmi Dmi].
  pose proof (digits_2 (zapcore.second t) ltac:(lia)) as [Ls Ds].
  pose proof (digits_3 (zapcore.millisecond t) Hms) as [Lms Dms].
  eexists _, _, _, _, _, _, _. split; [reflexivity|]. split.
  - repeat (apply Forall_cons; split; [split; assumption|]). constructor.
  - unfold zapcore.Time_Format. rewrite !length_append.
    rewrite Ly, Lmo, Ld, Lh, Lmi, Ls, Lms. reflexivity.
Qed.

Lemma time_layout_witness : String.length (zapcore.Time_Format demo_now) = 23%nat.
Proof.
  destruct (time_layout demo_now) as (y & mo & d & h & mi & s & ms & _ & _ & H).
  - unfold valid_time. cbn. lia.
  - exact H.
Defined.

(** ** The package [model] *)

(** X12.  The names of the default keys.  [init] gives a non-empty name to
    the three Tencent keys for secret id, secret key and API URL and to the
    bgsave alias, whatever the map held, and leaves every other key as it
    was.  Of the keys of [CfgDefault], the region key alone has no name in
    [DefaultName], so that indexing it gives the empty string; and the bgsave
    alias has a name without being a default key. *)
Theorem default_names_cover (names : gmap string string) (key : string) :
  (key ∈ [model.TXSECRETID; model.TXSECRETKEY; model.TXAPIURL;
          model.BGSAVECOMMAND] ->
   model.index (model.init names) key <> "" /\
   model.init names !! key = model.DefaultName !! key) /\
  (key ∉ [model.TXSECRETID; model.TXSECRETKEY; model.TXAPIURL;
          model.BGSAVECOMMAND] ->
   model.init names !! key = names !! key /\
   model.index model.DefaultName key = "") /\
  filter (fun k => model.DefaultName !! k = None) model.CfgDefault
  = [model.TXREGION] /\
  model.BGSAVECOMMAND ∉ model.CfgDefault.
Proof.
  split; [|split; [|split]].
  - rewrite !elem_of_cons, elem_of_nil.
    intros [->|[->|[->|[->|[]]]]]; split; unfold model.index, model.init,
      model.DefaultName; simplify_map_eq; done.
  - rewrite !not_elem_of_cons. intros (H1 & H2 & H3 & H4 & _).
    unfold model.index, model.DefaultName, model.init.
    split; rewrite !lookup_insert_ne by done; [done|].
    rewrite lookup_empty. done.
  - apply (bool_decide_unpack _). vm_compute. exact I.
  - apply (bool_decide_unpack _). vm_compute. exact I.
Qed.

Lemma default_names_cover_witness :
  model.index model.DefaultName model.TXREGION = "" /\
  model.index model.DefaultName model.TXAPIURL <> "".
Proof.
  split.
  - apply (default_names_cover ∅ model.TXREGION).
    apply (bool_decide_unpack _). vm_compute. exact I.
  - apply (default_names_cover ∅ model.TXAPIURL).
    apply (bool_decide_unpack _). vm_compute. exact I.
Defined.

